(** * EHAL generic device interface ([include/device_intrf.h])

    A shallow embedding of the [DEVINTRF] handle, of its table of
    implementation routines and of the inline wrappers
    [DeviceIntrfEnable], [DeviceIntrfDisable], [DeviceIntrfStartRx], ...
    together with the properties of the busy flag / enable count protocol.

    The C handle is one struct holding data fields and function pointers.
    Here the data fields form the record [DEVINTRF] and the function
    pointers the record [DEVINTRF_OPS]; every implementation routine
    receives the handle ([pDev]) and returns the handle it leaves behind,
    so an implementation may touch any data field, as in C.  Wrappers run
    in a state monad over a [World]: the handle plus the trace of the
    implementation routines invoked so far. *)

From Stdlib Require Import ZArith List Bool Lia.
From Stdlib Require Import Init.Byte.
Import ListNotations.
Local Open Scope Z_scope.

Set Implicit Arguments.

(** ** Machine integers: [int] is 32 bits, two's complement *)

Definition INT_MAX : Z := 2147483647.
Definition INT_MIN : Z := -2147483648.

Definition wrap_int (x : Z) : Z := (x + 2147483648) mod 4294967296 - 2147483648.

Definition in_int (x : Z) : Prop := INT_MIN <= x <= INT_MAX.

(** ** The primitives of [atomic.h] *)

(** Modelled from the spec: [atomic.h] is not part of the sources at hand.
    [AtomicInc] is the atomic increment of an [int] cell; it yields the
    incremented value, which is both stored and returned (Enable tests the
    returned value against 1 for the 0 -> 1 transition). *)
Definition AtomicInc (v : Z) : Z := wrap_int (v + 1).

(** Modelled from the spec: [atomic.h] is not part of the sources at hand.
    [AtomicDec] is the atomic decrement; the decremented value is stored
    and returned (Disable tests the post-decrement count against 1). *)
Definition AtomicDec (v : Z) : Z := wrap_int (v - 1).

(** Modelled from the spec: [atomic.h] is not part of the sources at hand.
    [AtomicTestAndSet] returns the previous value of the flag and leaves
    the flag set: the pair is (returned value, stored value). *)
Definition AtomicTestAndSet (b : bool) : bool * bool := (b, true).

(** Modelled from the spec: [atomic.h] is not part of the sources at hand.
    [AtomicClear] stores false. *)
Definition AtomicClear (b : bool) : bool := false.

(** ** The handle *)

Section Handle.

  (** [D] is the type of the implementation's private data ([pDevData]),
      [CB] the type of event callbacks ([DEVINTRF_EVTCB]). *)
Variables D CB : Type.

Record DEVINTRF : Type := mkDEVINTRF {
    pDevData : D;
    IntPrio : Z;
    EvtCB : option CB;
    Busy : bool;
    MaxRetry : Z;
    EnCnt : Z
  }.

Definition set_Busy (b : bool) (h : DEVINTRF) : DEVINTRF :=
    mkDEVINTRF (pDevData h) (IntPrio h) (EvtCB h) b (MaxRetry h) (EnCnt h).

Definition set_EnCnt (c : Z) (h : DEVINTRF) : DEVINTRF :=
    mkDEVINTRF (pDevData h) (IntPrio h) (EvtCB h) (Busy h) (MaxRetry h) c.

  (** The function pointers of the handle.  A receive routine returns the
      count together with the bytes it stored in the caller's buffer.
      Only [Reset] is tested against NULL by its wrapper. *)
Record DEVINTRF_OPS : Type := mkOPS {
    Disable : DEVINTRF -> DEVINTRF;
    Enable : DEVINTRF -> DEVINTRF;
    GetRate : DEVINTRF -> Z * DEVINTRF;
    SetRate : DEVINTRF -> Z -> Z * DEVINTRF;
    StartRx : DEVINTRF -> Z -> bool * DEVINTRF;
    RxData : DEVINTRF -> Z -> (Z * list byte) * DEVINTRF;
    StopRx : DEVINTRF -> DEVINTRF;
    StartTx : DEVINTRF -> Z -> bool * DEVINTRF;
    TxData : DEVINTRF -> list byte -> Z -> Z * DEVINTRF;
    StopTx : DEVINTRF -> DEVINTRF;
    Reset : option (DEVINTRF -> DEVINTRF)
  }.

  (** ** Trace of implementation routines *)

Inductive Call : Type :=
  | CallDisable
  | CallEnable
  | CallGetRate
  | CallSetRate (Rate : Z)
  | CallStartRx (DevAddr : Z)
  | CallRxData (BuffLen : Z)
  | CallStopRx
  | CallStartTx (DevAddr : Z)
  | CallTxData (pData : list byte) (DataLen : Z)
  | CallStopTx
  | CallReset.

Record World : Type := mkWorld {
    dev : DEVINTRF;
    calls : list Call
  }.

  (** ** The monad of wrappers *)

Definition M (A : Type) : Type := World -> A * World.

Definition ret {A} (a : A) : M A := fun w => (a, w).

Definition bind {A B} (m : M A) (k : A -> M B) : M B :=
    fun w => let (a, w') := m w in k a w'.

Definition exec {A} (m : M A) (w : World) : World := snd (m w).
Definition eval {A} (m : M A) (w : World) : A := fst (m w).

Notation "x <- m ;; k" := (bind m (fun x => k))
    (at level 61, m at next level, right associativity).
Notation "m ;;; k" := (bind m (fun _ => k))
    (at level 61, right associativity).

  (** Invoking a routine through the handle: the call is recorded and the
      routine runs on the current handle. *)
Definition invoke (c : Call) (f : DEVINTRF -> DEVINTRF) : M unit :=
    fun w => (tt, mkWorld (f (dev w)) (calls w ++ [c])).

Definition invoke_ret {A} (c : Call) (f : DEVINTRF -> A * DEVINTRF) : M A :=
    fun w => let (a, h) := f (dev w) in (a, mkWorld h (calls w ++ [c])).

  (** The atomic primitives applied to the fields of the handle. *)
Definition AtomicInc_EnCnt : M Z :=
    fun w => let v := AtomicInc (EnCnt (dev w)) in
             (v, mkWorld (set_EnCnt v (dev w)) (calls w)).

Definition AtomicDec_EnCnt : M Z :=
    fun w => let v := AtomicDec (EnCnt (dev w)) in
             (v, mkWorld (set_EnCnt v (dev w)) (calls w)).

Definition AtomicTestAndSet_Busy : M bool :=
    fun w => let (old, new) := AtomicTestAndSet (Busy (dev w)) in
             (old, mkWorld (set_Busy new (dev w)) (calls w)).

Definition AtomicClear_Busy : M unit :=
    fun w => (tt, mkWorld (set_Busy (AtomicClear (Busy (dev w))) (dev w)) (calls w)).

  (** ** The inline wrappers *)

Variable ops : DEVINTRF_OPS.

Definition DeviceIntrfDisable : M unit :=
    c <- AtomicDec_EnCnt ;;
    if c <? 1 then invoke CallDisable (Disable ops) else ret tt.

Definition DeviceIntrfEnable : M unit :=
    c <- AtomicInc_EnCnt ;;
    if c =? 1 then invoke CallEnable (Enable ops) else ret tt.

Definition DeviceIntrfGetRate : M Z :=
    invoke_ret CallGetRate (GetRate ops).

Definition DeviceIntrfSetRate (Rate : Z) : M Z :=
    invoke_ret (CallSetRate Rate) (fun h => SetRate ops h Rate).

Definition DeviceIntrfStartRx (DevAddr : Z) : M bool :=
    busy <- AtomicTestAndSet_Busy ;;
    if busy then ret false
    else
      retval <- invoke_ret (CallStartRx DevAddr) (fun h => StartRx ops h DevAddr) ;;
      if negb retval
      then AtomicClear_Busy ;;; ret retval
      else ret retval.

Definition DeviceIntrfRxData (BuffLen : Z) : M (Z * list byte) :=
    invoke_ret (CallRxData BuffLen) (fun h => RxData ops h BuffLen).

Definition DeviceIntrfStopRx : M unit :=
    invoke CallStopRx (StopRx ops) ;;;
    AtomicClear_Busy.

Definition DeviceIntrfStartTx (DevAddr : Z) : M bool :=
    busy <- AtomicTestAndSet_Busy ;;
    if busy then ret false
    else
      retval <- invoke_ret (CallStartTx DevAddr) (fun h => StartTx ops h DevAddr) ;;
      if negb retval
      then AtomicClear_Busy ;;; ret retval
      else ret retval.

Definition DeviceIntrfTxData (pBuff : list byte) (BuffLen : Z) : M Z :=
    invoke_ret (CallTxData pBuff BuffLen) (fun h => TxData ops h pBuff BuffLen).

Definition DeviceIntrfStopTx : M unit :=
    invoke CallStopTx (StopTx ops) ;;;
    AtomicClear_Busy.

Definition DeviceIntrfReset : M unit :=
  match Reset ops with
  | Some f => invoke CallReset f
  | None => ret tt
  end.

(** ** The composite transfers

    [DeviceIntrfRx], [DeviceIntrfTx], [DeviceIntrfRead] and
    [DeviceIntrfWrite] are only declared in the header (lines 314, 328,
    345 and 363); their bodies are in a C file that is not part of the
    sources at hand.  The header documents each of them: the quoted
    sentences below are its comments. *)

(** Modelled from the spec: the body of [DeviceIntrfRx] is missing.  It
    sequences StartRx, RxData, StopRx; if Start fails it returns 0 without
    invoking the data or stop phases.  Header, lines 303-312: "This
    function does full receive data sequence by calling StartRx, RxData,
    StopRx", returning the "Number of bytes read". *)
Definition DeviceIntrfRx (DevAddr BuffLen : Z) : M (Z * list byte) :=
  ok <- DeviceIntrfStartRx DevAddr ;;
  if ok then
    r <- DeviceIntrfRxData BuffLen ;;
    DeviceIntrfStopRx ;;;
    ret r
  else ret (0, []).

(** Modelled from the spec: the body of [DeviceIntrfTx] is missing.  It
    sequences StartTx, TxData, StopTx; if Start fails it returns 0 without
    invoking the data or stop phases.  Header, lines 317-326: "This
    function does full transmit data sequence by calling StartTx, TxData,
    StopTx". *)
Definition DeviceIntrfTx (DevAddr : Z) (pData : list byte) (DataLen : Z) : M Z :=
  ok <- DeviceIntrfStartTx DevAddr ;;
  if ok then
    n <- DeviceIntrfTxData pData DataLen ;;
    DeviceIntrfStopTx ;;;
    ret n
  else ret 0.

(** Modelled from the spec: the body of [DeviceIntrfRead] is missing.  A
    register-style read: inside one receive bracket it sends the
    address/command phase, then performs the data phase, and returns the
    number of bytes read.  Header, lines 331-343: "A device read transfer
    usually starts with a write of a command or register address.  Then
    follows with a read data results.  This function encapsulate that
    functionality". *)
Definition DeviceIntrfRead (DevAddr : Z) (pAdCmd : list byte) (AdCmdLen : Z)
    (RxLen : Z) : M (Z * list byte) :=
  ok <- DeviceIntrfStartRx DevAddr ;;
  if ok then
    _ <- DeviceIntrfTxData pAdCmd AdCmdLen ;;
    r <- DeviceIntrfRxData RxLen ;;
    DeviceIntrfStopRx ;;;
    ret r
  else ret (0, []).

(** Modelled from the spec: the body of [DeviceIntrfWrite] is missing.  A
    register-style write: inside one transmit bracket it sends the
    address/command phase, then the data phase, and returns the number of
    data bytes sent (not counting the address/command).  Header, lines
    349-361: "A device write transfer usually starts with a write of a
    command or register address.  Then follows with a write data", and it
    returns the "Number of bytes of data sent (not counting the
    Addr/Cmd)". *)
Definition DeviceIntrfWrite (DevAddr : Z) (pAdCmd : list byte) (AdCmdLen : Z)
    (pData : list byte) (DataLen : Z) : M Z :=
  ok <- DeviceIntrfStartTx DevAddr ;;
  if ok then
    _ <- DeviceIntrfTxData pAdCmd AdCmdLen ;;
    n <- DeviceIntrfTxData pData DataLen ;;
    DeviceIntrfStopTx ;;;
    ret n
  else ret 0.

(** ** Sequences of calls made by a client *)

Inductive StartReq : Type :=
| ReqStartRx (DevAddr : Z)
| ReqStartTx (DevAddr : Z).

Definition do_start (r : StartReq) : M bool :=
  match r with
  | ReqStartRx a => DeviceIntrfStartRx a
  | ReqStartTx a => DeviceIntrfStartTx a
  end.

(** The implementation routine behind a Start request. *)
Definition impl_start (r : StartReq) (h : DEVINTRF) : bool * DEVINTRF :=
  match r with
  | ReqStartRx a => StartRx ops h a
  | ReqStartTx a => StartTx ops h a
  end.

(** Start calls issued one after the other, no Stop in between; the
    result lists what each call returned. *)
Fixpoint run_starts (rs : list StartReq) : M (list bool) :=
  match rs with
  | [] => ret []
  | r :: rs' =>
      b <- do_start r ;;
      bs <- run_starts rs' ;;
      ret (b :: bs)
  end.

(** *** Start calls that preempt one another

    A Start call is cut at its accesses to the busy flag: the atomic
    test-and-set, the call of the implementation's start routine, and the
    clearing of the flag after a refusal.  A call in progress is a
    request with a program point; a schedule names, step by step, the
    call that advances.  An interrupt handler that runs a Start call to
    completion in the middle of another one is one such schedule. *)

Inductive StartPc : Type :=
| PcTestAndSet
| PcInvoke
| PcClear
| PcReturned (retval : bool).

Definition call_of (r : StartReq) : Call :=
  match r with
  | ReqStartRx a => CallStartRx a
  | ReqStartTx a => CallStartTx a
  end.

Definition step_start (r : StartReq) (pc : StartPc) : M StartPc :=
  match pc with
  | PcTestAndSet =>
      busy <- AtomicTestAndSet_Busy ;;
      ret (if busy then PcReturned false else PcInvoke)
  | PcInvoke =>
      retval <- invoke_ret (call_of r) (impl_start r) ;;
      ret (if negb retval then PcClear else PcReturned retval)
  | PcClear =>
      AtomicClear_Busy ;;; ret (PcReturned false)
  | PcReturned b => ret (PcReturned b)
  end.

Fixpoint step_nth (i : nat) (ts : list (StartReq * StartPc)) : M (list (StartReq * StartPc)) :=
  match ts, i with
  | [], _ => ret []
  | (r, pc) :: ts', O =>
      pc' <- step_start r pc ;;
      ret ((r, pc') :: ts')
  | t :: ts', S i' =>
      ts'' <- step_nth i' ts' ;;
      ret (t :: ts'')
  end.

Fixpoint run_sched (sched : list nat) (ts : list (StartReq * StartPc)) : M (list (StartReq * StartPc)) :=
  match sched with
  | [] => ret ts
  | i :: sched' =>
      ts' <- step_nth i ts ;;
      run_sched sched' ts'
  end.

Inductive PwrReq : Type :=
| ReqEnable
| ReqDisable.

Definition do_pwr (r : PwrReq) : M unit :=
  match r with
  | ReqEnable => DeviceIntrfEnable
  | ReqDisable => DeviceIntrfDisable
  end.

Fixpoint run_pwr (rs : list PwrReq) : M unit :=
  match rs with
  | [] => ret tt
  | r :: rs' => do_pwr r ;;; run_pwr rs'
  end.

(** [k] calls of the same wrapper. *)
Fixpoint times (k : nat) (m : M unit) : M unit :=
  match k with
  | O => ret tt
  | S k' => m ;;; times k' m
  end.

(** *** Arbitrary sequences of wrapper calls

    A request names one inline wrapper with its arguments; the answer is
    what the wrapper returned. *)

Inductive Req : Type :=
| RqDisable
| RqEnable
| RqGetRate
| RqSetRate (Rate : Z)
| RqStartRx (DevAddr : Z)
| RqRxData (BuffLen : Z)
| RqStopRx
| RqStartTx (DevAddr : Z)
| RqTxData (pBuff : list byte) (BuffLen : Z)
| RqStopTx
| RqReset.

Inductive Ret : Type :=
| RetVoid
| RetInt (n : Z)
| RetBool (b : bool)
| RetRx (n : Z) (pBuff : list byte).

Definition do_req (q : Req) : M Ret :=
  match q with
  | RqDisable => DeviceIntrfDisable ;;; ret RetVoid
  | RqEnable => DeviceIntrfEnable ;;; ret RetVoid
  | RqGetRate => n <- DeviceIntrfGetRate ;; ret (RetInt n)
  | RqSetRate Rate => n <- DeviceIntrfSetRate Rate ;; ret (RetInt n)
  | RqStartRx a => b <- DeviceIntrfStartRx a ;; ret (RetBool b)
  | RqRxData n => r <- DeviceIntrfRxData n ;; ret (RetRx (fst r) (snd r))
  | RqStopRx => DeviceIntrfStopRx ;;; ret RetVoid
  | RqStartTx a => b <- DeviceIntrfStartTx a ;; ret (RetBool b)
  | RqTxData p n => k <- DeviceIntrfTxData p n ;; ret (RetInt k)
  | RqStopTx => DeviceIntrfStopTx ;;; ret RetVoid
  | RqReset => DeviceIntrfReset ;;; ret RetVoid
  end.

Fixpoint run_reqs (qs : list Req) : M (list Ret) :=
  match qs with
  | [] => ret []
  | q :: qs' =>
      r <- do_req q ;;
      rs <- run_reqs qs' ;;
      ret (r :: rs)
  end.

(** *** Enable calls that preempt one another

    [DeviceIntrfEnable] is cut between the atomic increment and the call
    of the implementation's Enable routine. *)

Inductive EnablePc : Type :=
| EPcInc
| EPcPowerUp
| EPcReturned.

Definition step_enable (pc : EnablePc) : M EnablePc :=
  match pc with
  | EPcInc =>
      c <- AtomicInc_EnCnt ;;
      ret (if c =? 1 then EPcPowerUp else EPcReturned)
  | EPcPowerUp =>
      invoke CallEnable (Enable ops) ;;; ret EPcReturned
  | EPcReturned => ret EPcReturned
  end.

Fixpoint step_enable_nth (i : nat) (ts : list EnablePc) : M (list EnablePc) :=
  match ts, i with
  | [], _ => ret []
  | pc :: ts', O =>
      pc' <- step_enable pc ;;
      ret (pc' :: ts')
  | t :: ts', S i' =>
      ts'' <- step_enable_nth i' ts' ;;
      ret (t :: ts'')
  end.

Fixpoint run_enable_sched (sched : list nat) (ts : list EnablePc) : M (list EnablePc) :=
  match sched with
  | [] => ret ts
  | i :: sched' =>
      ts' <- step_enable_nth i ts ;;
      run_enable_sched sched' ts'
  end.

End Handle.

Arguments ret {D CB A} a.

(** ** Observations on a trace *)

Definition is_transfer (c : Call) : bool :=
  match c with
  | CallRxData _ | CallTxData _ _ => true
  | _ => false
  end.

Definition is_stop (c : Call) : bool :=
  match c with
  | CallStopRx | CallStopTx => true
  | _ => false
  end.

Definition transfer_phases (l : list Call) : nat :=
  length (filter is_transfer l).

Definition stop_phases (l : list Call) : nat :=
  length (filter is_stop l).

(** Power state of the hardware after the calls of a trace: the
    implementation's Enable routine powers it up, its Disable routine
    powers it down, nothing else touches it. *)
Definition power_step (on : bool) (c : Call) : bool :=
  match c with
  | CallEnable => true
  | CallDisable => false
  | _ => on
  end.

Definition hw_enabled (init : bool) (l : list Call) : bool :=
  fold_left power_step l init.

(** How often the implementation's Enable, resp. Disable, routine was
    invoked. *)
Definition enable_calls (l : list Call) : nat :=
  length (filter (fun c => match c with CallEnable => true | _ => false end) l).

Definition disable_calls (l : list Call) : nat :=
  length (filter (fun c => match c with CallDisable => true | _ => false end) l).

(** A call in progress holds the bracket once its test-and-set went
    through, until it clears the flag again. *)
Definition holds (t : StartReq * StartPc) : bool :=
  match snd t with
  | PcInvoke | PcClear | PcReturned true => true
  | PcTestAndSet | PcReturned false => false
  end.

Definition holdsN (t : StartReq * StartPc) : nat := if holds t then 1%nat else 0%nat.

Definition holders (ts : list (StartReq * StartPc)) : nat :=
  length (filter holds ts).

Definition returned_true (t : StartReq * StartPc) : bool :=
  match snd t with
  | PcReturned true => true
  | _ => false
  end.

Definition failed (t : StartReq * StartPc) : bool :=
  match snd t with
  | PcReturned false => true
  | _ => false
  end.

Definition clearing (t : StartReq * StartPc) : bool :=
  match snd t with
  | PcClear => true
  | _ => false
  end.

Definition has_returned (t : StartReq * StartPc) : bool :=
  match snd t with
  | PcReturned _ => true
  | _ => false
  end.

(** The schedule that runs the calls [i], [i+1], ..., [i+n-1] one after
    the other, each through its three steps. *)
Fixpoint seq_sched (i n : nat) : list nat :=
  match n with
  | O => []
  | S n' => i :: i :: i :: seq_sched (S i) n'
  end.



(** Enables minus Disables among the requests of a sequence, and the
    number of those power requests. *)
Fixpoint req_balance (qs : list Req) : Z :=
  match qs with
  | [] => 0
  | RqEnable :: qs' => 1 + req_balance qs'
  | RqDisable :: qs' => req_balance qs' - 1
  | _ :: qs' => req_balance qs'
  end.

Fixpoint power_reqs (qs : list Req) : nat :=
  match qs with
  | [] => O
  | (RqEnable | RqDisable) :: qs' => S (power_reqs qs')
  | _ :: qs' => power_reqs qs'
  end.

(** Enable calls in progress, by program point. *)
Definition past_inc (pc : EnablePc) : bool :=
  match pc with
  | EPcInc => false
  | _ => true
  end.

Definition powering (pc : EnablePc) : bool :=
  match pc with
  | EPcPowerUp => true
  | _ => false
  end.

Definition enable_returned (pc : EnablePc) : bool :=
  match pc with
  | EPcReturned => true
  | _ => false
  end.


(** An implementation that leaves the enable count to the wrappers. *)
Record ImplKeepsEnCnt (D CB : Type) (ops : DEVINTRF_OPS D CB) : Prop := {
  ke_Disable : forall h, EnCnt (Disable ops h) = EnCnt h;
  ke_Enable : forall h, EnCnt (Enable ops h) = EnCnt h;
  ke_GetRate : forall h, EnCnt (snd (GetRate ops h)) = EnCnt h;
  ke_SetRate : forall h r, EnCnt (snd (SetRate ops h r)) = EnCnt h;
  ke_StartRx : forall h a, EnCnt (snd (StartRx ops h a)) = EnCnt h;
  ke_RxData : forall h n, EnCnt (snd (RxData ops h n)) = EnCnt h;
  ke_StopRx : forall h, EnCnt (StopRx ops h) = EnCnt h;
  ke_StartTx : forall h a, EnCnt (snd (StartTx ops h a)) = EnCnt h;
  ke_TxData : forall h p n, EnCnt (snd (TxData ops h p n)) = EnCnt h;
  ke_StopTx : forall h, EnCnt (StopTx ops h) = EnCnt h;
  ke_Reset : forall f, Reset ops = Some f -> forall h, EnCnt (f h) = EnCnt h
}.

(** The flag has an owner: at most one call in progress holds the
    bracket, and the flag is set exactly when one does. *)
Definition flag_owned (D CB : Type) (ts : list (StartReq * StartPc)) (w : World D CB) : Prop :=
  (holders ts <= 1)%nat /\ (Busy (dev w) = true <-> holders ts = 1%nat).

(** No call was refused by the implementation: none is about to clear
    the flag, and a call was only turned down while another held the
    bracket. *)
Definition no_refusal (ts : list (StartReq * StartPc)) : Prop :=
  length (filter clearing ts) = 0%nat /\
  ((1 <= length (filter failed ts))%nat -> holders ts = 1%nat).

(** The enable count is the number of Enable calls past their
    increment, and the power-up, pending or done, is unique: [base] is
    the number of power-ups before the calls began. *)
Definition enable_inv (D CB : Type) (base : nat) (ts : list EnablePc) (w : World D CB) : Prop :=
  EnCnt (dev w) = Z.of_nat (length (filter past_inc ts)) /\
  (enable_calls (calls w) + length (filter powering ts) =
   base + Nat.min 1 (length (filter past_inc ts)))%nat.

(** Number of calls of a list that returned true. *)
Definition successes (bs : list bool) : nat := length (filter (fun b => b) bs).

(** Balance of a client's power requests: Enables minus Disables. *)
Fixpoint balance (rs : list PwrReq) : Z :=
  match rs with
  | [] => 0
  | ReqEnable :: rs' => 1 + balance rs'
  | ReqDisable :: rs' => balance rs' - 1
  end.

(** ** A transport with a finite set of achievable rates *)

(** Private data of the rate model: the rates the hardware can run at (a
    first one and the others, so that there is always one) and the rate
    currently programmed. *)
Record RateDev : Type := mkRateDev {
  rate_first : Z;
  rate_others : list Z;
  rate_current : Z
}.

Definition achievable (d : RateDev) : list Z := rate_first d :: rate_others d.

(** The candidate of [best :: l] closest to [req]; the earliest one wins a
    tie. *)
Fixpoint nearest (req best : Z) (l : list Z) : Z :=
  match l with
  | [] => best
  | a :: l' =>
      nearest req (if Z.abs (a - req) <? Z.abs (best - req) then a else best) l'
  end.

Section RateTransport.

Variable CB : Type.

Definition set_pDevData (d : RateDev) (h : DEVINTRF RateDev CB) : DEVINTRF RateDev CB :=
  mkDEVINTRF d (IntPrio h) (EvtCB h) (Busy h) (MaxRetry h) (EnCnt h).

(** Modelled from the spec: the SetRate routine of a transport is not part
    of the sources at hand.  The implementation clamps to the nearest
    achievable rate, applies it and returns the actual rate applied. *)
Definition RateSetRate (h : DEVINTRF RateDev CB) (Rate : Z) : Z * DEVINTRF RateDev CB :=
  let d := pDevData h in
  let R := nearest Rate (rate_first d) (rate_others d) in
  (R, set_pDevData (mkRateDev (rate_first d) (rate_others d) R) h).

(** Modelled from the spec: the GetRate routine of a transport is not part
    of the sources at hand.  It returns the current transfer rate and has
    no side effect. *)
Definition RateGetRate (h : DEVINTRF RateDev CB) : Z * DEVINTRF RateDev CB :=
  (rate_current (pDevData h), h).

(** Any table of routines, with the two rate routines of the model. *)
Definition rate_ops (ops : DEVINTRF_OPS RateDev CB) : DEVINTRF_OPS RateDev CB :=
  mkOPS (Disable ops) (Enable ops) RateGetRate RateSetRate
        (StartRx ops) (RxData ops) (StopRx ops)
        (StartTx ops) (TxData ops) (StopTx ops) (Reset ops).

End RateTransport.

(** ** A simulated transport

    Its routines leave the handle alone.  [start_ok] is the verdict of the
    start routines, a data routine moves at most [limit] bytes per call,
    and [reset] fills the Reset slot. *)
Section Simulated.

Variables D CB : Type.

Definition sim_ops (start_ok : bool) (limit : Z)
    (reset : option (DEVINTRF D CB -> DEVINTRF D CB)) : DEVINTRF_OPS D CB :=
  mkOPS (fun h => h) (fun h => h)
        (fun h => (0, h)) (fun h r => (r, h))
        (fun h _ => (start_ok, h))
        (fun h n => ((Z.min n limit, []), h))
        (fun h => h)
        (fun h _ => (start_ok, h))
        (fun h _ n => (Z.min n limit, h))
        (fun h => h)
        reset.

(** A handle as the driver leaves it after initialisation: not busy,
    enable count 0; and the world in which nothing has been invoked. *)
Definition init_handle (d : D) : DEVINTRF D CB :=
  mkDEVINTRF d 0 None false 5 0.

Definition init_world (d : D) : World D CB := mkWorld (init_handle d) [].

End Simulated.

(** The hardware is powered exactly when the count is positive. *)
Definition power_inv (D CB : Type) (w : World D CB) : Prop :=
  hw_enabled false (calls w) = true <-> 0 < EnCnt (dev w).

(** The simulated transport and the initial world used in concrete runs,
    with [unit] for the private data and for the callbacks. *)
Definition sim (start_ok : bool) : DEVINTRF_OPS unit unit :=
  sim_ops start_ok 16 None.

Definition w0 : World unit unit := @init_world unit unit tt.

(** * Properties *)

(** ** Generic facts about the monad and the handle *)

Section MonadFacts.

Variables D CB : Type.

Lemma bind_unfold (A B : Type) (m : M D CB A) (k : A -> M D CB B) (w : World D CB) :
  bind m k w = k (fst (m w)) (snd (m w)).
Proof. unfold bind. destruct (m w); reflexivity. Qed.

Lemma eval_bind (A B : Type) (m : M D CB A) (k : A -> M D CB B) (w : World D CB) :
  eval (bind m k) w = eval (k (eval m w)) (exec m w).
Proof. unfold eval, exec. rewrite bind_unfold. reflexivity. Qed.

Lemma exec_bind (A B : Type) (m : M D CB A) (k : A -> M D CB B) (w : World D CB) :
  exec (bind m k) w = exec (k (eval m w)) (exec m w).
Proof. unfold eval, exec. rewrite bind_unfold. reflexivity. Qed.

Lemma exec_ret (A : Type) (a : A) (w : World D CB) : exec (ret a) w = w.
Proof. reflexivity. Qed.

Lemma eval_ret (A : Type) (a : A) (w : World D CB) : eval (ret a) w = a.
Proof. reflexivity. Qed.

Lemma invoke_ret_eq (A : Type) (c : Call) (f : DEVINTRF D CB -> A * DEVINTRF D CB)
    (w : World D CB) :
  invoke_ret c f w = (fst (f (dev w)), mkWorld (snd (f (dev w))) (calls w ++ [c])).
Proof. unfold invoke_ret. destruct (f (dev w)); reflexivity. Qed.

Lemma set_Busy_same (h : DEVINTRF D CB) : set_Busy (Busy h) h = h.
Proof. destruct h; reflexivity. Qed.

Lemma world_eta (w : World D CB) : mkWorld (dev w) (calls w) = w.
Proof. destruct w; reflexivity. Qed.

End MonadFacts.

(** ** The busy flag *)

Section BusyFlag.

Variables D CB : Type.
Variable ops : DEVINTRF_OPS D CB.

(** A Start call on a busy handle: false, and the world is left as it was
    (in particular nothing is added to the trace). *)
Lemma DeviceIntrfStartRx_busy (a : Z) (w : World D CB) :
  Busy (dev w) = true -> DeviceIntrfStartRx ops a w = (false, w).
Proof.
  intros Hb. unfold DeviceIntrfStartRx. rewrite bind_unfold.
  unfold AtomicTestAndSet_Busy, AtomicTestAndSet; simpl.
  rewrite Hb. unfold ret. f_equal.
  rewrite <- Hb, set_Busy_same. apply world_eta.
Qed.

Lemma DeviceIntrfStartTx_busy (a : Z) (w : World D CB) :
  Busy (dev w) = true -> DeviceIntrfStartTx ops a w = (false, w).
Proof.
  intros Hb. unfold DeviceIntrfStartTx. rewrite bind_unfold.
  unfold AtomicTestAndSet_Busy, AtomicTestAndSet; simpl.
  rewrite Hb. unfold ret. f_equal.
  rewrite <- Hb, set_Busy_same. apply world_eta.
Qed.

(** A Start call on an idle handle: the implementation's routine runs on
    the handle with the flag set; its verdict is returned, and the flag is
    cleared again when the verdict is false. *)
Lemma DeviceIntrfStartRx_idle (a : Z) (w : World D CB) :
  Busy (dev w) = false ->
  DeviceIntrfStartRx ops a w =
    let r := StartRx ops (set_Busy true (dev w)) a in
    (fst r, mkWorld (if fst r then snd r else set_Busy false (snd r))
                    (calls w ++ [CallStartRx a])).
Proof.
  intros Hb. unfold DeviceIntrfStartRx. rewrite bind_unfold.
  unfold AtomicTestAndSet_Busy, AtomicTestAndSet; simpl.
  rewrite Hb. rewrite bind_unfold. unfold invoke_ret; simpl.
  destruct (StartRx ops (set_Busy true (dev w)) a) as [[|] h]; reflexivity.
Qed.

Lemma DeviceIntrfStartTx_idle (a : Z) (w : World D CB) :
  Busy (dev w) = false ->
  DeviceIntrfStartTx ops a w =
    let r := StartTx ops (set_Busy true (dev w)) a in
    (fst r, mkWorld (if fst r then snd r else set_Busy false (snd r))
                    (calls w ++ [CallStartTx a])).
Proof.
  intros Hb. unfold DeviceIntrfStartTx. rewrite bind_unfold.
  unfold AtomicTestAndSet_Busy, AtomicTestAndSet; simpl.
  rewrite Hb. rewrite bind_unfold. unfold invoke_ret; simpl.
  destruct (StartTx ops (set_Busy true (dev w)) a) as [[|] h]; reflexivity.
Qed.

Lemma DeviceIntrfStopRx_eq (w : World D CB) :
  DeviceIntrfStopRx ops w =
    (tt, mkWorld (set_Busy false (StopRx ops (dev w))) (calls w ++ [CallStopRx])).
Proof. reflexivity. Qed.

Lemma DeviceIntrfStopTx_eq (w : World D CB) :
  DeviceIntrfStopTx ops w =
    (tt, mkWorld (set_Busy false (StopTx ops (dev w))) (calls w ++ [CallStopTx])).
Proof. reflexivity. Qed.

(** C2.  Whenever DeviceIntrfStartRx or DeviceIntrfStartTx returns false,
    the busy flag on return equals its value before the call: either the
    flag was already set and stays set, or the flag was acquired, the
    implementation's start routine failed, and the flag was cleared again
    before returning. *)
Theorem DeviceIntrfStart_false_restores_Busy (r : StartReq) (w : World D CB) :
  eval (do_start ops r) w = false ->
  Busy (dev (exec (do_start ops r) w)) = Busy (dev w).
Proof.
  unfold eval, exec.
  destruct (Busy (dev w)) eqn:Hb; destruct r as [a|a];
    cbn [do_start].
  - rewrite DeviceIntrfStartRx_busy by assumption. simpl. auto.
  - rewrite DeviceIntrfStartTx_busy by assumption. simpl. auto.
  - rewrite DeviceIntrfStartRx_idle by assumption.
    cbv zeta. destruct (StartRx ops _ a) as [[|] h]; simpl; congruence.
  - rewrite DeviceIntrfStartTx_idle by assumption.
    cbv zeta. destruct (StartTx ops _ a) as [[|] h]; simpl; congruence.
Qed.


(** C10.  DeviceIntrfStopRx and DeviceIntrfStopTx check nothing: in every
    state of the handle they invoke the implementation's stop routine and
    leave the busy flag false.  In particular a Stop issued by a party
    that does not own the bracket clears the flag of whoever owns it, and
    the next Start, of either kind, then reaches the implementation's
    start routine although the owner never stopped. *)
Theorem DeviceIntrfStop_unconditional (w : World D CB) :
  (exec (DeviceIntrfStopRx ops) w =
     mkWorld (set_Busy false (StopRx ops (dev w))) (calls w ++ [CallStopRx]) /\
   Busy (dev (exec (DeviceIntrfStopRx ops) w)) = false) /\
  (exec (DeviceIntrfStopTx ops) w =
     mkWorld (set_Busy false (StopTx ops (dev w))) (calls w ++ [CallStopTx]) /\
   Busy (dev (exec (DeviceIntrfStopTx ops) w)) = false) /\
  (forall a,
     calls (exec (DeviceIntrfStartTx ops a) (exec (DeviceIntrfStopRx ops) w)) =
       calls w ++ [CallStopRx; CallStartTx a]) /\
  (forall a,
     calls (exec (DeviceIntrfStartRx ops a) (exec (DeviceIntrfStopTx ops) w)) =
       calls w ++ [CallStopTx; CallStartRx a]).
Proof.
  repeat split.
  - intros a. unfold exec at 1.
    rewrite DeviceIntrfStartTx_idle by reflexivity.
    cbv zeta. simpl. rewrite <- app_assoc. reflexivity.
  - intros a. unfold exec at 1.
    rewrite DeviceIntrfStartRx_idle by reflexivity.
    cbv zeta. simpl. rewrite <- app_assoc. reflexivity.
Qed.

End BusyFlag.

(** ** Mutual exclusion of the Start...Stop bracket *)

Section MutualExclusion.

Variables D CB : Type.
Variable ops : DEVINTRF_OPS D CB.

(** The busy flag belongs to the wrappers: the start routines of the
    implementation leave it as they find it. *)
Hypothesis StartRx_keeps_Busy :
  forall h a, Busy (snd (StartRx ops h a)) = Busy h.
Hypothesis StartTx_keeps_Busy :
  forall h a, Busy (snd (StartTx ops h a)) = Busy h.

Lemma impl_start_keeps_Busy (r : StartReq) (h : DEVINTRF D CB) :
  Busy (snd (impl_start ops r h)) = Busy h.
Proof. destruct r; simpl; auto. Qed.

Lemma do_start_busy (r : StartReq) (w : World D CB) :
  Busy (dev w) = true -> do_start ops r w = (false, w).
Proof.
  destruct r; simpl; intros Hb.
  - apply DeviceIntrfStartRx_busy; assumption.
  - apply DeviceIntrfStartTx_busy; assumption.
Qed.

Lemma do_start_idle (r : StartReq) (w : World D CB) :
  Busy (dev w) = false ->
  do_start ops r w =
    let v := impl_start ops r (set_Busy true (dev w)) in
    (fst v, mkWorld (if fst v then snd v else set_Busy false (snd v))
                    (calls w ++ [match r with
                                 | ReqStartRx a => CallStartRx a
                                 | ReqStartTx a => CallStartTx a
                                 end])).
Proof.
  destruct r; simpl; intros Hb.
  - apply DeviceIntrfStartRx_idle; assumption.
  - apply DeviceIntrfStartTx_idle; assumption.
Qed.

(** A Start call that returns true leaves the flag set. *)
Lemma do_start_true_Busy (r : StartReq) (w : World D CB) :
  eval (do_start ops r) w = true ->
  Busy (dev (exec (do_start ops r) w)) = true.
Proof.
  unfold eval, exec. destruct (Busy (dev w)) eqn:Hb.
  - rewrite do_start_busy by assumption. simpl. discriminate.
  - rewrite do_start_idle by assumption. cbv zeta.
    pose proof (impl_start_keeps_Busy r (set_Busy true (dev w))) as Hk.
    destruct (impl_start ops r (set_Busy true (dev w))) as [[|] h]; simpl in *.
    + intros _. exact Hk.
    + discriminate.
Qed.

(** On a busy handle every Start call of a sequence is turned down and
    the world does not change. *)
Lemma run_starts_busy (rs : list StartReq) (w : World D CB) :
  Busy (dev w) = true ->
  run_starts ops rs w = (repeat false (length rs), w).
Proof.
  intros Hb. induction rs as [|r rs IH]; simpl.
  - reflexivity.
  - rewrite bind_unfold, do_start_busy by assumption. simpl.
    rewrite bind_unfold, IH. reflexivity.
Qed.

Lemma successes_cons (b : bool) (bs : list bool) :
  successes (b :: bs) = if b then S (successes bs) else successes bs.
Proof. destruct b; reflexivity. Qed.

Lemma successes_repeat_false (n : nat) : successes (repeat false n) = 0%nat.
Proof. induction n; simpl; auto. Qed.

Lemma run_starts_cons (r : StartReq) (rs : list StartReq) (w : World D CB) :
  eval (run_starts ops (r :: rs)) w =
    eval (do_start ops r) w :: eval (run_starts ops rs) (exec (do_start ops r) w).
Proof.
  simpl. rewrite eval_bind, eval_bind. reflexivity.
Qed.

Lemma run_starts_at_most_one (rs : list StartReq) :
  forall w : World D CB, (successes (eval (run_starts ops rs) w) <= 1)%nat.
Proof.
  induction rs as [|r rs IH]; intros w.
  - simpl. auto.
  - rewrite run_starts_cons.
    destruct (eval (do_start ops r) w) eqn:He.
    + apply do_start_true_Busy in He.
      unfold eval at 1. rewrite (run_starts_busy rs _ He). simpl fst.
      rewrite successes_cons, successes_repeat_false. auto.
    + rewrite successes_cons. apply IH.
Qed.

(** C1 (amended).  A DeviceIntrfStartRx or DeviceIntrfStartTx call made
    while the busy flag is set returns false at once and does not invoke
    the implementation's start routine (the world, trace included, is
    unchanged).  Hence of any N Start calls on one handle with no Stop in
    between at most one returns true; and when the flag is clear at first
    and the implementation's start routine succeeds for the first call,
    exactly one returns true, the first, and the other N-1 return
    false. *)
Theorem DeviceIntrfStart_mutual_exclusion :
  (forall r (w : World D CB),
     Busy (dev w) = true -> do_start ops r w = (false, w)) /\
  (forall rs (w : World D CB),
     (successes (eval (run_starts ops rs) w) <= 1)%nat) /\
  (forall r rs (w : World D CB),
     Busy (dev w) = false ->
     fst (impl_start ops r (set_Busy true (dev w))) = true ->
     eval (run_starts ops (r :: rs)) w = true :: repeat false (length rs) /\
     successes (eval (run_starts ops (r :: rs)) w) = 1%nat).
Proof.
  split; [exact do_start_busy|].
  split; [intros rs w; apply run_starts_at_most_one|].
  intros r rs w Hb Hok.
  assert (He : eval (do_start ops r) w = true).
  { unfold eval. rewrite do_start_idle by assumption. exact Hok. }
  assert (Hrun : eval (run_starts ops (r :: rs)) w = true :: repeat false (length rs)).
  { rewrite run_starts_cons, He.
    apply do_start_true_Busy in He.
    unfold eval at 1. rewrite (run_starts_busy rs _ He). reflexivity. }
  rewrite Hrun. split; [reflexivity|].
  rewrite successes_cons, successes_repeat_false. reflexivity.
Qed.

(** *** Start calls that preempt one another *)

(** Run alone, the three steps of a call are the wrapper. *)
Lemma step_start_thrice (r : StartReq) (w : World D CB) :
  run_sched ops [0%nat; 0%nat; 0%nat] [(r, PcTestAndSet)] w =
    ([(r, PcReturned (eval (do_start ops r) w))], exec (do_start ops r) w).
Proof.
  unfold eval, exec. destruct (Busy (dev w)) eqn:Hb.
  - rewrite do_start_busy by assumption.
    cbn [run_sched step_nth step_start]. rewrite !bind_unfold.
    unfold AtomicTestAndSet_Busy, AtomicTestAndSet. cbn [fst snd ret].
    rewrite Hb. cbn. rewrite <- Hb at 1. rewrite set_Busy_same, world_eta.
    reflexivity.
  - rewrite do_start_idle by assumption.
    cbn [run_sched step_nth step_start]. rewrite !bind_unfold.
    unfold AtomicTestAndSet_Busy, AtomicTestAndSet. cbn [fst snd ret].
    rewrite Hb. cbn [step_nth step_start]. rewrite !bind_unfold.
    rewrite invoke_ret_eq. cbn [fst snd ret dev calls].
    assert (Hc : call_of r = match r with
                             | ReqStartRx a => CallStartRx a
                             | ReqStartTx a => CallStartTx a
                             end) by (destruct r; reflexivity).
    rewrite <- Hc.
    destruct (impl_start ops r (set_Busy true (dev w))) as [[|] h];
      cbn; reflexivity.
Qed.

Lemma holders_cons (t : StartReq * StartPc) (ts : list (StartReq * StartPc)) :
  holders (t :: ts) = (holdsN t + holders ts)%nat.
Proof. unfold holders, holdsN. simpl. destruct (holds t); reflexivity. Qed.

(** One step of one call keeps the bracket exclusive: [k] counts the
    holders among the other calls. *)
Lemma step_start_exclusive (r : StartReq) (pc : StartPc) (k : nat) (w : World D CB) :
  (k + holdsN (r, pc) <= 1)%nat ->
  ((k + holdsN (r, pc) = 1)%nat -> Busy (dev w) = true) ->
  (k + holdsN (r, eval (step_start ops r pc) w) <= 1)%nat /\
  ((k + holdsN (r, eval (step_start ops r pc) w) = 1)%nat ->
   Busy (dev (exec (step_start ops r pc) w)) = true).
Proof.
  unfold eval, exec, holdsN, holds. intros Hle Hb.
  destruct pc as [| | |b]; cbn [step_start snd] in *.
  - rewrite bind_unfold. unfold AtomicTestAndSet_Busy, AtomicTestAndSet.
    cbn [fst snd ret]. destruct (Busy (dev w)) eqn:Hbusy; cbn.
    + split; [lia|reflexivity].
    + assert (k = 0%nat) by (destruct k as [|[|k]]; [reflexivity| |lia];
        specialize (Hb eq_refl); discriminate).
      subst k. split; [lia|reflexivity].
  - rewrite bind_unfold, invoke_ret_eq. cbn [fst snd ret dev].
    pose proof (impl_start_keeps_Busy r (dev w)) as Hk.
    rewrite Hb in Hk by lia.
    destruct (impl_start ops r (dev w)) as [[|] h]; cbn in *;
      (split; [lia|intros _; exact Hk]).
  - rewrite bind_unfold. cbn. split; [lia|]. intros E.
    assert (k = 0%nat) by lia. subst k. discriminate.
  - unfold ret. cbn [fst snd]. split; assumption.
Qed.

Lemma step_nth_exclusive (ts : list (StartReq * StartPc)) :
  forall (i k : nat) (w : World D CB),
    (k + holders ts <= 1)%nat ->
    ((k + holders ts = 1)%nat -> Busy (dev w) = true) ->
    (k + holders (eval (step_nth ops i ts) w) <= 1)%nat /\
    ((k + holders (eval (step_nth ops i ts) w) = 1)%nat ->
     Busy (dev (exec (step_nth ops i ts) w)) = true).
Proof.
  induction ts as [|[r pc] ts IH]; intros i k w Hle Hb.
  - destruct i; cbn; split; assumption.
  - rewrite holders_cons in Hle, Hb. destruct i as [|i]; cbn [step_nth].
    + rewrite eval_bind, exec_bind, eval_ret, exec_ret, holders_cons.
      destruct (@step_start_exclusive r pc (k + holders ts) w) as [H1 H2];
        [lia | intros; apply Hb; lia |].
      split; [lia | intros; apply H2; lia].
    + rewrite eval_bind, exec_bind, eval_ret, exec_ret, holders_cons.
      destruct (IH i (k + holdsN (r, pc))%nat w) as [H1 H2];
        [lia | intros; apply Hb; lia |].
      split; [lia | intros; apply H2; lia].
Qed.

Lemma run_sched_exclusive (sched : list nat) :
  forall (ts : list (StartReq * StartPc)) (w : World D CB),
    (holders ts <= 1)%nat ->
    (holders ts = 1%nat -> Busy (dev w) = true) ->
    (holders (eval (run_sched ops sched ts) w) <= 1)%nat.
Proof.
  induction sched as [|i sched IH]; intros ts w Hle Hb.
  - exact Hle.
  - cbn [run_sched]. rewrite eval_bind.
    destruct (@step_nth_exclusive ts i 0%nat w) as [H1 H2]; [exact Hle|exact Hb|].
    apply IH; assumption.
Qed.

Lemma returned_true_holders (ts : list (StartReq * StartPc)) :
  (length (filter returned_true ts) <= holders ts)%nat.
Proof.
  induction ts as [|[r pc] ts IH]; [apply le_n|].
  rewrite holders_cons. unfold holdsN, holds, returned_true in *.
  cbn [filter snd]. destruct pc as [| | |[|]]; cbn [length]; lia.
Qed.

(** X3.  Whatever the schedule, of the Start calls issued on one handle
    with no Stop in between at most one returns true. *)
Lemma run_sched_at_most_one (sched : list nat) (ts : list (StartReq * StartPc))
    (w : World D CB) :
  holders ts = 0%nat ->
  (length (filter returned_true (eval (run_sched ops sched ts) w)) <= 1)%nat.
Proof.
  intros H0.
  pose proof (returned_true_holders (eval (run_sched ops sched ts) w)).
  pose proof (@run_sched_exclusive sched ts w).
  rewrite H0 in *. 
  assert (holders (eval (run_sched ops sched ts) w) <= 1)%nat
    by (apply H1; [lia | discriminate]).
  lia.
Qed.

End MutualExclusion.

(** ** The enable count *)

Lemma wrap_int_id (x : Z) : INT_MIN <= x <= INT_MAX -> wrap_int x = x.
Proof.
  unfold INT_MIN, INT_MAX, wrap_int. intros H.
  rewrite Z.mod_small by lia. lia.
Qed.

Lemma hw_enabled_snoc (init : bool) (l : list Call) (c : Call) :
  hw_enabled init (l ++ [c]) = power_step (hw_enabled init l) c.
Proof. unfold hw_enabled. rewrite fold_left_app. reflexivity. Qed.

Section Power.

Variables D CB : Type.
Variable ops : DEVINTRF_OPS D CB.

Lemma set_EnCnt_same (h : DEVINTRF D CB) : set_EnCnt (EnCnt h) h = h.
Proof. destruct h; reflexivity. Qed.

Lemma set_EnCnt_twice (a b : Z) (h : DEVINTRF D CB) :
  set_EnCnt a (set_EnCnt b h) = set_EnCnt a h.
Proof. reflexivity. Qed.

Lemma DeviceIntrfEnable_eq (w : World D CB) :
  exec (DeviceIntrfEnable ops) w =
    let c := AtomicInc (EnCnt (dev w)) in
    if c =? 1
    then mkWorld (Enable ops (set_EnCnt c (dev w))) (calls w ++ [CallEnable])
    else mkWorld (set_EnCnt c (dev w)) (calls w).
Proof.
  unfold exec, DeviceIntrfEnable. rewrite bind_unfold.
  unfold AtomicInc_EnCnt. simpl.
  destruct (AtomicInc (EnCnt (dev w)) =? 1); reflexivity.
Qed.

Lemma DeviceIntrfDisable_eq (w : World D CB) :
  exec (DeviceIntrfDisable ops) w =
    let c := AtomicDec (EnCnt (dev w)) in
    if c <? 1
    then mkWorld (Disable ops (set_EnCnt c (dev w))) (calls w ++ [CallDisable])
    else mkWorld (set_EnCnt c (dev w)) (calls w).
Proof.
  unfold exec, DeviceIntrfDisable. rewrite bind_unfold.
  unfold AtomicDec_EnCnt. simpl.
  destruct (AtomicDec (EnCnt (dev w)) <? 1); reflexivity.
Qed.

(** An Enable on a handle already enabled only bumps the count. *)
Lemma DeviceIntrfEnable_counted (w : World D CB) :
  1 <= EnCnt (dev w) < INT_MAX ->
  exec (DeviceIntrfEnable ops) w =
    mkWorld (set_EnCnt (EnCnt (dev w) + 1) (dev w)) (calls w).
Proof.
  intros H. rewrite DeviceIntrfEnable_eq. cbv zeta. unfold AtomicInc.
  rewrite wrap_int_id by (unfold INT_MIN, INT_MAX in *; lia).
  destruct (Z.eqb_spec (EnCnt (dev w) + 1) 1); [lia | reflexivity].
Qed.

(** A Disable that leaves other users only drops the count. *)
Lemma DeviceIntrfDisable_counted (w : World D CB) :
  2 <= EnCnt (dev w) <= INT_MAX ->
  exec (DeviceIntrfDisable ops) w =
    mkWorld (set_EnCnt (EnCnt (dev w) - 1) (dev w)) (calls w).
Proof.
  intros H. rewrite DeviceIntrfDisable_eq. cbv zeta. unfold AtomicDec.
  rewrite wrap_int_id by (unfold INT_MIN, INT_MAX in *; lia).
  destruct (Z.ltb_spec (EnCnt (dev w) - 1) 1); [lia | reflexivity].
Qed.

Lemma times_S (k : nat) (m : M D CB unit) (w : World D CB) :
  exec (times (S k) m) w = exec (times k m) (exec m w).
Proof. simpl. rewrite exec_bind. reflexivity. Qed.

Lemma times_snoc (k : nat) (m : M D CB unit) :
  forall w : World D CB, exec (times (S k) m) w = exec m (exec (times k m) w).
Proof.
  induction k as [|k IH]; intros w.
  - rewrite times_S. reflexivity.
  - rewrite times_S, IH, times_S. reflexivity.
Qed.

Lemma times_Enable_counted (j : nat) :
  forall w : World D CB,
    1 <= EnCnt (dev w) -> EnCnt (dev w) + Z.of_nat j <= INT_MAX ->
    exec (times j (DeviceIntrfEnable ops)) w =
      mkWorld (set_EnCnt (EnCnt (dev w) + Z.of_nat j) (dev w)) (calls w).
Proof.
  induction j as [|j IH]; intros w H1 H2.
  - simpl. unfold exec, ret. simpl. rewrite Z.add_0_r, set_EnCnt_same.
    symmetry; apply world_eta.
  - rewrite times_S, DeviceIntrfEnable_counted by lia.
    rewrite IH; simpl; try lia.
    rewrite set_EnCnt_twice. f_equal. f_equal. lia.
Qed.

Lemma times_Disable_counted (j : nat) :
  forall w : World D CB,
    Z.of_nat j < EnCnt (dev w) <= INT_MAX ->
    exec (times j (DeviceIntrfDisable ops)) w =
      mkWorld (set_EnCnt (EnCnt (dev w) - Z.of_nat j) (dev w)) (calls w).
Proof.
  induction j as [|j IH]; intros w H.
  - simpl. unfold exec, ret. simpl. rewrite Z.sub_0_r, set_EnCnt_same.
    symmetry; apply world_eta.
  - rewrite times_S, DeviceIntrfDisable_counted by lia.
    rewrite IH; simpl; try lia.
    rewrite set_EnCnt_twice. f_equal. f_equal. lia.
Qed.

(** The enable count belongs to the wrappers: the power routines of the
    implementation leave it as they find it. *)
Hypothesis Enable_keeps_EnCnt : forall h, EnCnt (Enable ops h) = EnCnt h.
Hypothesis Disable_keeps_EnCnt : forall h, EnCnt (Disable ops h) = EnCnt h.

(** The first Enable on an idle handle powers the hardware up. *)
Lemma DeviceIntrfEnable_first (w : World D CB) :
  EnCnt (dev w) = 0 ->
  exec (DeviceIntrfEnable ops) w =
    mkWorld (Enable ops (set_EnCnt 1 (dev w))) (calls w ++ [CallEnable]).
Proof.
  intros H. rewrite DeviceIntrfEnable_eq, H. reflexivity.
Qed.

(** The Disable of the last user powers the hardware down. *)
Lemma DeviceIntrfDisable_last (w : World D CB) :
  EnCnt (dev w) = 1 ->
  exec (DeviceIntrfDisable ops) w =
    mkWorld (Disable ops (set_EnCnt 0 (dev w))) (calls w ++ [CallDisable]).
Proof.
  intros H. rewrite DeviceIntrfDisable_eq, H. reflexivity.
Qed.

Lemma times_Enable_from_0 (j : nat) (w : World D CB) :
  EnCnt (dev w) = 0 -> Z.of_nat (S j) <= INT_MAX ->
  exec (times (S j) (DeviceIntrfEnable ops)) w =
    mkWorld (set_EnCnt (Z.of_nat (S j)) (Enable ops (set_EnCnt 1 (dev w))))
            (calls w ++ [CallEnable]).
Proof.
  intros H0 Hk. rewrite times_S, DeviceIntrfEnable_first by assumption.
  rewrite times_Enable_counted; simpl dev; simpl calls;
    rewrite ?Enable_keeps_EnCnt; simpl EnCnt; try lia.
  f_equal. f_equal. lia.
Qed.

(** C3.  From enable count 0, k DeviceIntrfEnable calls followed by k
    DeviceIntrfDisable calls (1 <= k <= INT_MAX) invoke the
    implementation's Enable routine exactly once, on the first Enable, and
    its Disable routine exactly once, on the last Disable: the trace grows
    by CallEnable after the first Enable, stays as it is through the other
    Enables and the first k-1 Disables, and grows by CallDisable at the
    last Disable.  An intermediate call changes the count and nothing
    else. *)
Theorem DeviceIntrfEnable_Disable_balanced (k : nat) (w : World D CB) :
  EnCnt (dev w) = 0 -> (1 <= k)%nat -> Z.of_nat k <= INT_MAX ->
  let w' := exec (times k (DeviceIntrfEnable ops)) w in
  (forall j, (1 <= j <= k)%nat ->
     calls (exec (times j (DeviceIntrfEnable ops)) w) = calls w ++ [CallEnable] /\
     EnCnt (dev (exec (times j (DeviceIntrfEnable ops)) w)) = Z.of_nat j) /\
  (forall j, (j < k)%nat ->
     calls (exec (times j (DeviceIntrfDisable ops)) w') = calls w ++ [CallEnable] /\
     EnCnt (dev (exec (times j (DeviceIntrfDisable ops)) w')) = Z.of_nat k - Z.of_nat j) /\
  calls (exec (times k (DeviceIntrfDisable ops)) w') =
    calls w ++ [CallEnable; CallDisable] /\
  enable_calls (calls (exec (times k (DeviceIntrfDisable ops)) w')) =
    (enable_calls (calls w) + 1)%nat /\
  disable_calls (calls (exec (times k (DeviceIntrfDisable ops)) w')) =
    (disable_calls (calls w) + 1)%nat /\
  EnCnt (dev (exec (times k (DeviceIntrfDisable ops)) w')) = 0 /\
  (forall v : World D CB, 1 <= EnCnt (dev v) < INT_MAX ->
     exec (DeviceIntrfEnable ops) v =
       mkWorld (set_EnCnt (EnCnt (dev v) + 1) (dev v)) (calls v)) /\
  (forall v : World D CB, 2 <= EnCnt (dev v) <= INT_MAX ->
     exec (DeviceIntrfDisable ops) v =
       mkWorld (set_EnCnt (EnCnt (dev v) - 1) (dev v)) (calls v)).
Proof.
  intros H0 Hk1 Hk2 w'.
  assert (Hen : forall j, (1 <= j <= k)%nat ->
            exec (times j (DeviceIntrfEnable ops)) w =
              mkWorld (set_EnCnt (Z.of_nat j) (Enable ops (set_EnCnt 1 (dev w))))
                      (calls w ++ [CallEnable])).
  { intros [|j] Hj; [lia|]. apply times_Enable_from_0; [assumption|lia]. }
  assert (Hw' : w' = mkWorld (set_EnCnt (Z.of_nat k) (Enable ops (set_EnCnt 1 (dev w))))
                             (calls w ++ [CallEnable])).
  { apply Hen. lia. }
  assert (Hdis : forall j, (j < k)%nat ->
            exec (times j (DeviceIntrfDisable ops)) w' =
              mkWorld (set_EnCnt (Z.of_nat k - Z.of_nat j) (dev w')) (calls w')).
  { intros j Hj. rewrite times_Disable_counted.
    - rewrite Hw'. reflexivity.
    - rewrite Hw'. simpl. lia. }
  assert (Hcalls : calls (exec (times k (DeviceIntrfDisable ops)) w') =
                     calls w ++ [CallEnable; CallDisable]).
  { destruct k as [|k]; [lia|].
    rewrite times_snoc, Hdis by lia.
    rewrite DeviceIntrfDisable_last by (cbn [dev EnCnt set_EnCnt]; lia).
    rewrite Hw'. cbn [calls]. rewrite <- app_assoc. reflexivity. }
  split; [|split; [|split; [|split; [|split; [|split; [|split]]]]]].
  - intros j Hj. rewrite (Hen j Hj). split; reflexivity.
  - intros j Hj. rewrite (Hdis j Hj), Hw'. split; reflexivity.
  - exact Hcalls.
  - rewrite Hcalls. unfold enable_calls. rewrite filter_app, length_app.
    reflexivity.
  - rewrite Hcalls. unfold disable_calls. rewrite filter_app, length_app.
    reflexivity.
  - destruct k as [|k]; [lia|].
    rewrite times_snoc, Hdis by lia.
    rewrite DeviceIntrfDisable_last by (cbn [dev EnCnt set_EnCnt]; lia).
    cbn [dev]. rewrite Disable_keeps_EnCnt. reflexivity.
  - apply DeviceIntrfEnable_counted.
  - apply DeviceIntrfDisable_counted.
Qed.

Lemma do_pwr_step (r : PwrReq) (w : World D CB) :
  power_inv w -> INT_MIN < EnCnt (dev w) < INT_MAX ->
  power_inv (exec (do_pwr ops r) w) /\
  EnCnt (dev (exec (do_pwr ops r) w)) = EnCnt (dev w) + balance [r].
Proof.
  unfold power_inv. intros Hinv Hrange.
  destruct r; cbn [do_pwr balance].
  - rewrite DeviceIntrfEnable_eq. cbv zeta. unfold AtomicInc.
    rewrite wrap_int_id by (unfold INT_MIN, INT_MAX in *; lia).
    destruct (Z.eqb_spec (EnCnt (dev w) + 1) 1) as [E|E]; simpl.
    + rewrite hw_enabled_snoc, Enable_keeps_EnCnt. simpl. split; [|lia].
      split; [lia|reflexivity].
    + split; [|lia]. rewrite Hinv. lia.
  - rewrite DeviceIntrfDisable_eq. cbv zeta. unfold AtomicDec.
    rewrite wrap_int_id by (unfold INT_MIN, INT_MAX in *; lia).
    destruct (Z.ltb_spec (EnCnt (dev w) - 1) 1) as [E|E]; simpl.
    + rewrite hw_enabled_snoc, Disable_keeps_EnCnt. simpl. split; [|lia].
      split; [discriminate|lia].
    + split; [|lia]. rewrite Hinv. lia.
Qed.

Lemma run_pwr_cons (r : PwrReq) (rs : list PwrReq) (w : World D CB) :
  exec (run_pwr ops (r :: rs)) w = exec (run_pwr ops rs) (exec (do_pwr ops r) w).
Proof. simpl. rewrite exec_bind. reflexivity. Qed.

Lemma balance_cons (r : PwrReq) (rs : list PwrReq) :
  balance (r :: rs) = balance [r] + balance rs.
Proof. destruct r; cbn [balance]; lia. Qed.

Lemma run_pwr_inv (rs : list PwrReq) :
  forall w : World D CB,
    power_inv w ->
    Z.abs (EnCnt (dev w)) + Z.of_nat (length rs) <= INT_MAX ->
    power_inv (exec (run_pwr ops rs) w) /\
    EnCnt (dev (exec (run_pwr ops rs) w)) = EnCnt (dev w) + balance rs.
Proof.
  induction rs as [|r rs IH]; intros w Hinv Hlen.
  - simpl. unfold exec, ret. simpl. split; [assumption|lia].
  - rewrite run_pwr_cons.
    simpl length in Hlen.
    destruct (do_pwr_step r Hinv) as [Hinv' Hc].
    { unfold INT_MIN, INT_MAX in *. lia. }
    destruct (IH _ Hinv') as [Hinv'' Hc'].
    { rewrite Hc. destruct r; cbn [balance]; lia. }
    split; [assumption|].
    rewrite Hc', Hc, (balance_cons r rs). lia.
Qed.

(** C5 (amended).  From the initial state (count 0, hardware off) and for
    every sequence of at most INT_MAX DeviceIntrfEnable and
    DeviceIntrfDisable calls, the enable count equals the number of
    Enables minus the number of Disables issued, so it is >= 0 exactly
    when the Disables issued do not outnumber the Enables, and the
    hardware is in the enabled state if and only if the count is > 0. *)
Theorem DeviceIntrfEnCnt_tracks_power (rs : list PwrReq) (w : World D CB) :
  EnCnt (dev w) = 0 -> hw_enabled false (calls w) = false ->
  Z.of_nat (length rs) <= INT_MAX ->
  let w' := exec (run_pwr ops rs) w in
  EnCnt (dev w') = balance rs /\
  (0 <= EnCnt (dev w') <-> 0 <= balance rs) /\
  (hw_enabled false (calls w') = true <-> 0 < EnCnt (dev w')).
Proof.
  intros H0 Hoff Hlen w'.
  destruct (@run_pwr_inv rs w) as [Hinv Hc].
  - unfold power_inv. rewrite H0, Hoff. split; [discriminate|lia].
  - rewrite H0. simpl. assumption.
  - fold w' in Hinv, Hc. rewrite H0 in Hc. simpl in Hc.
    split; [assumption|]. split; [rewrite Hc; reflexivity|exact Hinv].
Qed.

End Power.

(** ** The composite transfers *)

Section Composite.

Variables D CB : Type.
Variable ops : DEVINTRF_OPS D CB.

Lemma calls_TxData (p : list byte) (n : Z) (w : World D CB) :
  calls (exec (DeviceIntrfTxData ops p n) w) = calls w ++ [CallTxData p n].
Proof. unfold exec, DeviceIntrfTxData. rewrite invoke_ret_eq. reflexivity. Qed.

Lemma calls_RxData (n : Z) (w : World D CB) :
  calls (exec (DeviceIntrfRxData ops n) w) = calls w ++ [CallRxData n].
Proof. unfold exec, DeviceIntrfRxData. rewrite invoke_ret_eq. reflexivity. Qed.

Lemma calls_StopTx (w : World D CB) :
  calls (exec (DeviceIntrfStopTx ops) w) = calls w ++ [CallStopTx].
Proof. reflexivity. Qed.

Lemma calls_StopRx (w : World D CB) :
  calls (exec (DeviceIntrfStopRx ops) w) = calls w ++ [CallStopRx].
Proof. reflexivity. Qed.

(** What a Start call adds to the trace: nothing on a busy handle, the
    call of the implementation's start routine otherwise. *)
Lemma calls_StartTx (a : Z) (w : World D CB) :
  calls (exec (DeviceIntrfStartTx ops a) w) =
    calls w ++ (if Busy (dev w) then [] else [CallStartTx a]).
Proof.
  unfold exec. destruct (Busy (dev w)) eqn:Hb.
  - rewrite DeviceIntrfStartTx_busy by assumption. simpl. now rewrite app_nil_r.
  - rewrite DeviceIntrfStartTx_idle by assumption. reflexivity.
Qed.

Lemma calls_StartRx (a : Z) (w : World D CB) :
  calls (exec (DeviceIntrfStartRx ops a) w) =
    calls w ++ (if Busy (dev w) then [] else [CallStartRx a]).
Proof.
  unfold exec. destruct (Busy (dev w)) eqn:Hb.
  - rewrite DeviceIntrfStartRx_busy by assumption. simpl. now rewrite app_nil_r.
  - rewrite DeviceIntrfStartRx_idle by assumption. reflexivity.
Qed.

Lemma StartTx_true_idle (a : Z) (w : World D CB) :
  eval (DeviceIntrfStartTx ops a) w = true -> Busy (dev w) = false.
Proof.
  destruct (Busy (dev w)) eqn:Hb; [|reflexivity].
  unfold eval. rewrite DeviceIntrfStartTx_busy by assumption. discriminate.
Qed.

Lemma StartRx_true_idle (a : Z) (w : World D CB) :
  eval (DeviceIntrfStartRx ops a) w = true -> Busy (dev w) = false.
Proof.
  destruct (Busy (dev w)) eqn:Hb; [|reflexivity].
  unfold eval. rewrite DeviceIntrfStartRx_busy by assumption. discriminate.
Qed.

Lemma transfer_phases_app (l1 l2 : list Call) :
  transfer_phases (l1 ++ l2) = (transfer_phases l1 + transfer_phases l2)%nat.
Proof. unfold transfer_phases. now rewrite filter_app, length_app. Qed.

Lemma stop_phases_app (l1 l2 : list Call) :
  stop_phases (l1 ++ l2) = (stop_phases l1 + stop_phases l2)%nat.
Proof. unfold stop_phases. now rewrite filter_app, length_app. Qed.

(** A Start call is neither a transfer phase nor a stop phase. *)
Lemma StartTx_no_phase (a : Z) (w : World D CB) :
  transfer_phases (calls (exec (DeviceIntrfStartTx ops a) w)) = transfer_phases (calls w) /\
  stop_phases (calls (exec (DeviceIntrfStartTx ops a) w)) = stop_phases (calls w).
Proof.
  rewrite calls_StartTx, transfer_phases_app, stop_phases_app.
  destruct (Busy (dev w)); split; apply Nat.add_0_r.
Qed.

Lemma StartRx_no_phase (a : Z) (w : World D CB) :
  transfer_phases (calls (exec (DeviceIntrfStartRx ops a) w)) = transfer_phases (calls w) /\
  stop_phases (calls (exec (DeviceIntrfStartRx ops a) w)) = stop_phases (calls w).
Proof.
  rewrite calls_StartRx, transfer_phases_app, stop_phases_app.
  destruct (Busy (dev w)); split; apply Nat.add_0_r.
Qed.

(** The four composites, by the verdict of their Start call. *)
Lemma DeviceIntrfWrite_ok (a : Z) (ad : list byte) (adl : Z) (p : list byte) (n : Z)
    (w : World D CB) :
  eval (DeviceIntrfStartTx ops a) w = true ->
  calls (exec (DeviceIntrfWrite ops a ad adl p n) w) =
    calls w ++ [CallStartTx a; CallTxData ad adl; CallTxData p n; CallStopTx].
Proof.
  intros He. unfold DeviceIntrfWrite.
  rewrite exec_bind, He, !exec_bind, exec_ret.
  rewrite calls_StopTx, !calls_TxData, calls_StartTx.
  rewrite (StartTx_true_idle _ _ He), <- !app_assoc. reflexivity.
Qed.

Lemma DeviceIntrfWrite_fail (a : Z) (ad : list byte) (adl : Z) (p : list byte) (n : Z)
    (w : World D CB) :
  eval (DeviceIntrfStartTx ops a) w = false ->
  DeviceIntrfWrite ops a ad adl p n w = (0, exec (DeviceIntrfStartTx ops a) w).
Proof.
  intros He. unfold DeviceIntrfWrite. rewrite bind_unfold.
  fold (eval (DeviceIntrfStartTx ops a) w). rewrite He. reflexivity.
Qed.

Lemma DeviceIntrfRead_ok (a : Z) (ad : list byte) (adl : Z) (n : Z) (w : World D CB) :
  eval (DeviceIntrfStartRx ops a) w = true ->
  calls (exec (DeviceIntrfRead ops a ad adl n) w) =
    calls w ++ [CallStartRx a; CallTxData ad adl; CallRxData n; CallStopRx].
Proof.
  intros He. unfold DeviceIntrfRead.
  rewrite exec_bind, He, !exec_bind, exec_ret.
  rewrite calls_StopRx, calls_RxData, calls_TxData, calls_StartRx.
  rewrite (StartRx_true_idle _ _ He), <- !app_assoc. reflexivity.
Qed.

Lemma DeviceIntrfRead_fail (a : Z) (ad : list byte) (adl : Z) (n : Z) (w : World D CB) :
  eval (DeviceIntrfStartRx ops a) w = false ->
  DeviceIntrfRead ops a ad adl n w = ((0, []), exec (DeviceIntrfStartRx ops a) w).
Proof.
  intros He. unfold DeviceIntrfRead. rewrite bind_unfold.
  fold (eval (DeviceIntrfStartRx ops a) w). rewrite He. reflexivity.
Qed.

Lemma DeviceIntrfTx_ok (a : Z) (p : list byte) (n : Z) (w : World D CB) :
  eval (DeviceIntrfStartTx ops a) w = true ->
  calls (exec (DeviceIntrfTx ops a p n) w) =
    calls w ++ [CallStartTx a; CallTxData p n; CallStopTx].
Proof.
  intros He. unfold DeviceIntrfTx.
  rewrite exec_bind, He, !exec_bind, exec_ret.
  rewrite calls_StopTx, calls_TxData, calls_StartTx.
  rewrite (StartTx_true_idle _ _ He), <- !app_assoc. reflexivity.
Qed.

Lemma DeviceIntrfTx_fail (a : Z) (p : list byte) (n : Z) (w : World D CB) :
  eval (DeviceIntrfStartTx ops a) w = false ->
  DeviceIntrfTx ops a p n w = (0, exec (DeviceIntrfStartTx ops a) w).
Proof.
  intros He. unfold DeviceIntrfTx. rewrite bind_unfold.
  fold (eval (DeviceIntrfStartTx ops a) w). rewrite He. reflexivity.
Qed.

Lemma DeviceIntrfRx_ok (a : Z) (n : Z) (w : World D CB) :
  eval (DeviceIntrfStartRx ops a) w = true ->
  calls (exec (DeviceIntrfRx ops a n) w) =
    calls w ++ [CallStartRx a; CallRxData n; CallStopRx].
Proof.
  intros He. unfold DeviceIntrfRx.
  rewrite exec_bind, He, !exec_bind, exec_ret.
  rewrite calls_StopRx, calls_RxData, calls_StartRx.
  rewrite (StartRx_true_idle _ _ He), <- !app_assoc. reflexivity.
Qed.

Lemma DeviceIntrfRx_fail (a : Z) (n : Z) (w : World D CB) :
  eval (DeviceIntrfStartRx ops a) w = false ->
  DeviceIntrfRx ops a n w = ((0, []), exec (DeviceIntrfStartRx ops a) w).
Proof.
  intros He. unfold DeviceIntrfRx. rewrite bind_unfold.
  fold (eval (DeviceIntrfStartRx ops a) w). rewrite He. reflexivity.
Qed.

(** C6.  The composite DeviceIntrfWrite invokes exactly two underlying
    transfer phases, the address/command phase then the data phase,
    between its Start and its Stop when the initial Start succeeds, and
    returns the count of the data phase; when
    the Start fails it invokes zero transfer phases and zero stop phases,
    returns 0, and leaves the handle and the trace as the failed Start
    left them.  Likewise the other composites: each runs its transfer
    phases only when its Start succeeds (DeviceIntrfRead the
    address/command phase then the data phase; DeviceIntrfTx and
    DeviceIntrfRx, which take no address/command, their data phase), and
    each returns 0 with no transfer and no stop phase when its Start
    fails. *)
Theorem DeviceIntrf_composite_phases (a : Z) (ad : list byte) (adl : Z)
    (p : list byte) (n : Z) (w : World D CB) :
  (if eval (DeviceIntrfStartTx ops a) w
   then calls (exec (DeviceIntrfWrite ops a ad adl p n) w) =
          calls w ++ [CallStartTx a; CallTxData ad adl; CallTxData p n; CallStopTx] /\
        transfer_phases (calls (exec (DeviceIntrfWrite ops a ad adl p n) w)) =
          (transfer_phases (calls w) + 2)%nat /\
        eval (DeviceIntrfWrite ops a ad adl p n) w =
          eval (DeviceIntrfTxData ops p n)
               (exec (DeviceIntrfTxData ops ad adl) (exec (DeviceIntrfStartTx ops a) w))
   else DeviceIntrfWrite ops a ad adl p n w = (0, exec (DeviceIntrfStartTx ops a) w) /\
        transfer_phases (calls (exec (DeviceIntrfWrite ops a ad adl p n) w)) =
          transfer_phases (calls w) /\
        stop_phases (calls (exec (DeviceIntrfWrite ops a ad adl p n) w)) =
          stop_phases (calls w)) /\
  (if eval (DeviceIntrfStartRx ops a) w
   then calls (exec (DeviceIntrfRead ops a ad adl n) w) =
          calls w ++ [CallStartRx a; CallTxData ad adl; CallRxData n; CallStopRx] /\
        transfer_phases (calls (exec (DeviceIntrfRead ops a ad adl n) w)) =
          (transfer_phases (calls w) + 2)%nat /\
        eval (DeviceIntrfRead ops a ad adl n) w =
          eval (DeviceIntrfRxData ops n)
               (exec (DeviceIntrfTxData ops ad adl) (exec (DeviceIntrfStartRx ops a) w))
   else DeviceIntrfRead ops a ad adl n w = ((0, []), exec (DeviceIntrfStartRx ops a) w) /\
        transfer_phases (calls (exec (DeviceIntrfRead ops a ad adl n) w)) =
          transfer_phases (calls w) /\
        stop_phases (calls (exec (DeviceIntrfRead ops a ad adl n) w)) =
          stop_phases (calls w)) /\
  (if eval (DeviceIntrfStartTx ops a) w
   then calls (exec (DeviceIntrfTx ops a p n) w) =
          calls w ++ [CallStartTx a; CallTxData p n; CallStopTx] /\
        transfer_phases (calls (exec (DeviceIntrfTx ops a p n) w)) =
          (transfer_phases (calls w) + 1)%nat /\
        eval (DeviceIntrfTx ops a p n) w =
          eval (DeviceIntrfTxData ops p n) (exec (DeviceIntrfStartTx ops a) w)
   else DeviceIntrfTx ops a p n w = (0, exec (DeviceIntrfStartTx ops a) w) /\
        transfer_phases (calls (exec (DeviceIntrfTx ops a p n) w)) =
          transfer_phases (calls w) /\
        stop_phases (calls (exec (DeviceIntrfTx ops a p n) w)) =
          stop_phases (calls w)) /\
  (if eval (DeviceIntrfStartRx ops a) w
   then calls (exec (DeviceIntrfRx ops a n) w) =
          calls w ++ [CallStartRx a; CallRxData n; CallStopRx] /\
        transfer_phases (calls (exec (DeviceIntrfRx ops a n) w)) =
          (transfer_phases (calls w) + 1)%nat /\
        eval (DeviceIntrfRx ops a n) w =
          eval (DeviceIntrfRxData ops n) (exec (DeviceIntrfStartRx ops a) w)
   else DeviceIntrfRx ops a n w = ((0, []), exec (DeviceIntrfStartRx ops a) w) /\
        transfer_phases (calls (exec (DeviceIntrfRx ops a n) w)) =
          transfer_phases (calls w) /\
        stop_phases (calls (exec (DeviceIntrfRx ops a n) w)) =
          stop_phases (calls w)).
Proof.
  pose proof (StartTx_no_phase a w) as [Ttx Stx].
  pose proof (StartRx_no_phase a w) as [Trx Srx].
  repeat apply conj.
  - destruct (eval (DeviceIntrfStartTx ops a) w) eqn:He.
    + rewrite DeviceIntrfWrite_ok by exact He. rewrite transfer_phases_app.
      split; [reflexivity|]. split; [reflexivity|].
      unfold DeviceIntrfWrite. rewrite eval_bind, He, !eval_bind, eval_ret.
      reflexivity.
    + split; [apply DeviceIntrfWrite_fail; exact He|].
      unfold exec. rewrite DeviceIntrfWrite_fail by exact He. cbn [snd]. auto.
  - destruct (eval (DeviceIntrfStartRx ops a) w) eqn:He.
    + rewrite DeviceIntrfRead_ok by exact He. rewrite transfer_phases_app.
      split; [reflexivity|]. split; [reflexivity|].
      unfold DeviceIntrfRead. rewrite eval_bind, He, !eval_bind, eval_ret.
      reflexivity.
    + split; [apply DeviceIntrfRead_fail; exact He|].
      unfold exec. rewrite DeviceIntrfRead_fail by exact He. cbn [snd]. auto.
  - destruct (eval (DeviceIntrfStartTx ops a) w) eqn:He.
    + rewrite DeviceIntrfTx_ok by exact He. rewrite transfer_phases_app.
      split; [reflexivity|]. split; [reflexivity|].
      unfold DeviceIntrfTx. rewrite eval_bind, He, !eval_bind, eval_ret.
      reflexivity.
    + split; [apply DeviceIntrfTx_fail; exact He|].
      unfold exec. rewrite DeviceIntrfTx_fail by exact He. cbn [snd]. auto.
  - destruct (eval (DeviceIntrfStartRx ops a) w) eqn:He.
    + rewrite DeviceIntrfRx_ok by exact He. rewrite transfer_phases_app.
      split; [reflexivity|]. split; [reflexivity|].
      unfold DeviceIntrfRx. rewrite eval_bind, He, !eval_bind, eval_ret.
      reflexivity.
    + split; [apply DeviceIntrfRx_fail; exact He|].
      unfold exec. rewrite DeviceIntrfRx_fail by exact He. cbn [snd]. auto.
Qed.

End Composite.

(** ** Delegating wrappers *)

Section Delegation.

Variables D CB : Type.
Variable ops : DEVINTRF_OPS D CB.

(** C8.  DeviceIntrfReset invokes the implementation's Reset routine if
    and only if the Reset slot is not null: with a routine in the slot the
    routine runs once on the handle and the wrapper adds nothing to what
    it does; with a null slot the world is left exactly as it was.  The
    wrapper does not look at the busy flag: the routines invoked are the
    same whatever the value of the flag. *)
Theorem DeviceIntrfReset_optional (w : World D CB) :
  match Reset ops with
  | Some f =>
      DeviceIntrfReset ops w = (tt, mkWorld (f (dev w)) (calls w ++ [CallReset]))
  | None => DeviceIntrfReset ops w = (tt, w)
  end /\
  (forall b : bool,
     calls (exec (DeviceIntrfReset ops) (mkWorld (set_Busy b (dev w)) (calls w))) =
     calls (exec (DeviceIntrfReset ops) w)).
Proof.
  unfold exec, DeviceIntrfReset.
  destruct (Reset ops) as [f|]; split; try reflexivity.
Qed.

(** C9.  DeviceIntrfRxData and DeviceIntrfTxData delegate to the
    implementation's RxData and TxData: they return what the routine
    returns, the handle they leave is the handle the routine leaves, and
    the routine is invoked exactly once.  The wrapper itself touches no
    field of the handle, busy flag and enable count included.  The count
    returned may be less than the length requested: a transport that moves
    at most 10 bytes per call answers 10 to a request of 16. *)
Theorem DeviceIntrfData_delegates (p : list byte) (n : Z) (w : World D CB) :
  DeviceIntrfRxData ops n w =
    (fst (RxData ops (dev w) n),
     mkWorld (snd (RxData ops (dev w) n)) (calls w ++ [CallRxData n])) /\
  DeviceIntrfTxData ops p n w =
    (fst (TxData ops (dev w) p n),
     mkWorld (snd (TxData ops (dev w) p n)) (calls w ++ [CallTxData p n])) /\
  eval (DeviceIntrfTxData (sim_ops true 10 None) p 16) w = 10 /\
  fst (eval (DeviceIntrfRxData (sim_ops true 10 None) 16) w) = 10.
Proof.
  unfold DeviceIntrfRxData, DeviceIntrfTxData.
  rewrite !invoke_ret_eq. repeat split.
Qed.

(** The rate wrappers delegate in the same way, whatever the table. *)
Lemma DeviceIntrfRate_delegates (Rate : Z) (w : World D CB) :
  DeviceIntrfSetRate ops Rate w =
    (fst (SetRate ops (dev w) Rate),
     mkWorld (snd (SetRate ops (dev w) Rate)) (calls w ++ [CallSetRate Rate])) /\
  DeviceIntrfGetRate ops w =
    (fst (GetRate ops (dev w)),
     mkWorld (snd (GetRate ops (dev w))) (calls w ++ [CallGetRate])).
Proof.
  unfold DeviceIntrfSetRate, DeviceIntrfGetRate.
  rewrite !invoke_ret_eq. split; reflexivity.
Qed.

End Delegation.

(** ** Rate negotiation *)

Lemma nearest_In (req : Z) (l : list Z) :
  forall best, In (nearest req best l) (best :: l).
Proof.
  induction l as [|a l IH]; intros best; simpl.
  - left; reflexivity.
  - destruct (IH (if Z.abs (a - req) <? Z.abs (best - req) then a else best))
      as [H|H].
    + destruct (Z.abs (a - req) <? Z.abs (best - req)); auto.
    + right; right; exact H.
Qed.

Lemma nearest_closest (req : Z) (l : list Z) :
  forall best a, In a (best :: l) ->
    Z.abs (nearest req best l - req) <= Z.abs (a - req).
Proof.
  induction l as [|b l IH]; intros best a Ha.
  - destruct Ha as [<-|[]]. simpl. lia.
  - cbn [nearest].
    destruct (Z.ltb_spec (Z.abs (b - req)) (Z.abs (best - req))) as [Hlt|Hge].
    + destruct Ha as [<-|[<-|Ha]].
      * pose proof (IH b b (or_introl eq_refl)). lia.
      * apply IH. left; reflexivity.
      * apply IH. right; exact Ha.
    + destruct Ha as [<-|[<-|Ha]].
      * apply IH. left; reflexivity.
      * pose proof (IH best best (or_introl eq_refl)). lia.
      * apply IH. right; exact Ha.
Qed.

Section Rate.

Variable CB : Type.
Variable ops0 : DEVINTRF_OPS RateDev CB.

(** C7.  For every handle of the rate model and every requested rate,
    DeviceIntrfSetRate returns the rate R the implementation applied: R is
    one of the achievable rates, none of them is closer to the request,
    so R is the requested value only when that value is achievable.  A
    DeviceIntrfGetRate that follows, with no SetRate in between, returns
    exactly R, and so does a second one. *)
Theorem DeviceIntrfSetRate_GetRate_roundtrip (req : Z) (w : World RateDev CB) :
  let ops := rate_ops ops0 in
  let R := eval (DeviceIntrfSetRate ops req) w in
  let w1 := exec (DeviceIntrfSetRate ops req) w in
  In R (achievable (pDevData (dev w))) /\
  (forall a, In a (achievable (pDevData (dev w))) ->
     Z.abs (R - req) <= Z.abs (a - req)) /\
  (R = req <-> In req (achievable (pDevData (dev w)))) /\
  rate_current (pDevData (dev w1)) = R /\
  achievable (pDevData (dev w1)) = achievable (pDevData (dev w)) /\
  eval (DeviceIntrfGetRate ops) w1 = R /\
  eval (DeviceIntrfGetRate ops) (exec (DeviceIntrfGetRate ops) w1) = R.
Proof.
  intros ops R w1.
  assert (HR : R = nearest req (rate_first (pDevData (dev w)))
                       (rate_others (pDevData (dev w)))) by reflexivity.
  assert (Hin : In R (achievable (pDevData (dev w)))).
  { rewrite HR. apply nearest_In. }
  assert (Hmin : forall a, In a (achievable (pDevData (dev w))) ->
                   Z.abs (R - req) <= Z.abs (a - req)).
  { intros a Ha. rewrite HR. apply nearest_closest. exact Ha. }
  split; [exact Hin|]. split; [exact Hmin|].
  split.
  - split.
    + intros E. rewrite <- E. exact Hin.
    + intros Hreq. specialize (Hmin req Hreq). lia.
  - repeat split.
Qed.

End Rate.

(** * Concrete runs

    The statements above instantiated on the simulated transport [sim]
    and the freshly initialised world [w0]. *)

Lemma DeviceIntrfStart_false_restores_Busy_witness :
  eval (do_start (sim false) (ReqStartRx 80)) w0 = false /\
  Busy (dev (exec (do_start (sim false) (ReqStartRx 80)) w0)) = Busy (dev w0).
Proof.
  split; [reflexivity|].
  apply (@DeviceIntrfStart_false_restores_Busy unit unit (sim false) (ReqStartRx 80) w0).
  reflexivity.
Defined.


(** Two Start calls on an idle handle whose transport refuses to start:
    both return false, so it is not the case that exactly one of them
    returns true. *)
Lemma DeviceIntrfStart_none_succeeds :
  Busy (dev w0) = false /\
  eval (run_starts (sim false) [ReqStartRx 80; ReqStartTx 80]) w0 = [false; false] /\
  successes (eval (run_starts (sim false) [ReqStartRx 80; ReqStartTx 80]) w0) <> 1%nat.
Proof.
  split; [reflexivity|]. split; [reflexivity|].
  vm_compute. discriminate.
Qed.

Lemma DeviceIntrfStart_mutual_exclusion_witness :
  (forall h a, Busy (snd (StartRx (sim true) h a)) = Busy h) /\
  (forall h a, Busy (snd (StartTx (sim true) h a)) = Busy h) /\
  Busy (dev w0) = false /\
  fst (impl_start (sim true) (ReqStartRx 80) (set_Busy true (dev w0))) = true /\
  eval (run_starts (sim true) [ReqStartRx 80; ReqStartTx 80; ReqStartRx 81]) w0 =
    [true; false; false].
Proof.
  assert (Hrx : forall h a, Busy (snd (StartRx (sim true) h a)) = Busy h)
    by (intros; reflexivity).
  assert (Htx : forall h a, Busy (snd (StartTx (sim true) h a)) = Busy h)
    by (intros; reflexivity).
  split; [exact Hrx|]. split; [exact Htx|].
  split; [reflexivity|]. split; [reflexivity|].
  apply (proj2 (proj2 (@DeviceIntrfStart_mutual_exclusion unit unit (sim true) Hrx Htx))
           (ReqStartRx 80) [ReqStartTx 80; ReqStartRx 81] w0); reflexivity.
Defined.

Lemma DeviceIntrfEnable_Disable_balanced_witness :
  (forall h, EnCnt (Enable (sim true) h) = EnCnt h) /\
  (forall h, EnCnt (Disable (sim true) h) = EnCnt h) /\
  EnCnt (dev w0) = 0 /\ (1 <= 3)%nat /\ Z.of_nat 3 <= INT_MAX /\
  calls (exec (times 3 (DeviceIntrfDisable (sim true)))
              (exec (times 3 (DeviceIntrfEnable (sim true))) w0)) =
    calls w0 ++ [CallEnable; CallDisable].
Proof.
  assert (Hen : forall h, EnCnt (Enable (sim true) h) = EnCnt h)
    by (intros; reflexivity).
  assert (Hdis : forall h, EnCnt (Disable (sim true) h) = EnCnt h)
    by (intros; reflexivity).
  assert (H0 : EnCnt (dev w0) = 0) by reflexivity.
  assert (H1 : (1 <= 3)%nat) by lia.
  assert (H2 : Z.of_nat 3 <= INT_MAX) by (vm_compute; discriminate).
  repeat (split; [assumption|]).
  exact (proj1 (proj2 (proj2
    (@DeviceIntrfEnable_Disable_balanced unit unit (sim true) Hen Hdis 3 w0 H0 H1 H2)))).
Defined.

(** One Disable on a freshly initialised handle: the count becomes -1, so
    it does not stay >= 0. *)
Lemma DeviceIntrfDisable_goes_negative :
  EnCnt (dev w0) = 0 /\
  EnCnt (dev (exec (run_pwr (sim true) [ReqDisable]) w0)) = -1 /\
  ~ 0 <= EnCnt (dev (exec (run_pwr (sim true) [ReqDisable]) w0)).
Proof.
  split; [reflexivity|]. split; [reflexivity|].
  vm_compute. intros H; apply H; reflexivity.
Qed.

Lemma DeviceIntrfEnCnt_tracks_power_witness :
  (forall h, EnCnt (Enable (sim true) h) = EnCnt h) /\
  (forall h, EnCnt (Disable (sim true) h) = EnCnt h) /\
  EnCnt (dev w0) = 0 /\ hw_enabled false (calls w0) = false /\
  Z.of_nat (length [ReqEnable; ReqEnable; ReqDisable; ReqDisable; ReqDisable]) <= INT_MAX /\
  EnCnt (dev (exec (run_pwr (sim true)
                      [ReqEnable; ReqEnable; ReqDisable; ReqDisable; ReqDisable]) w0)) =
    balance [ReqEnable; ReqEnable; ReqDisable; ReqDisable; ReqDisable].
Proof.
  assert (Hen : forall h, EnCnt (Enable (sim true) h) = EnCnt h)
    by (intros; reflexivity).
  assert (Hdis : forall h, EnCnt (Disable (sim true) h) = EnCnt h)
    by (intros; reflexivity).
  assert (H0 : EnCnt (dev w0) = 0) by reflexivity.
  assert (H1 : hw_enabled false (calls w0) = false) by reflexivity.
  assert (H2 : Z.of_nat (length [ReqEnable; ReqEnable; ReqDisable; ReqDisable; ReqDisable])
               <= INT_MAX) by (vm_compute; discriminate).
  repeat (split; [assumption|]).
  exact (proj1 (@DeviceIntrfEnCnt_tracks_power unit unit (sim true) Hen Hdis
                  [ReqEnable; ReqEnable; ReqDisable; ReqDisable; ReqDisable]
                  w0 H0 H1 H2)).
Defined.

(** * Arbitrary sequences of wrapper calls *)

Section Sequences.

Variables D CB : Type.
Variable ops : DEVINTRF_OPS D CB.


Lemma run_reqs_cons_exec (q : Req) (qs : list Req) (w : World D CB) :
  exec (run_reqs ops (q :: qs)) w = exec (run_reqs ops qs) (exec (do_req ops q) w).
Proof. cbn [run_reqs]. rewrite !exec_bind. reflexivity. Qed.




(** What a wrapper other than Enable and Disable adds to the trace is no
    power call; and it leaves the enable count alone. *)
Lemma hw_enabled_app_neutral (l1 l2 : list Call) :
  Forall (fun c => c <> CallEnable /\ c <> CallDisable) l2 ->
  hw_enabled false (l1 ++ l2) = hw_enabled false l1.
Proof.
  unfold hw_enabled. rewrite fold_left_app. generalize (fold_left power_step l1 false).
  induction l2 as [|c l2 IH]; intros b HF.
  - reflexivity.
  - inversion HF as [|? ? [H1 H2] HF']; subst. cbn [fold_left].
    rewrite IH by assumption.
    destruct c; try reflexivity; congruence.
Qed.

Lemma power_inv_neutral (w w' : World D CB) (l : list Call) :
  calls w' = calls w ++ l ->
  Forall (fun c => c <> CallEnable /\ c <> CallDisable) l ->
  EnCnt (dev w') = EnCnt (dev w) ->
  power_inv w -> power_inv w'.
Proof.
  unfold power_inv. intros Hc HF He Hinv.
  rewrite Hc, He, hw_enabled_app_neutral by assumption. exact Hinv.
Qed.

Lemma do_req_power (q : Req) (w : World D CB) :
  ImplKeepsEnCnt ops ->
  power_inv w ->
  Z.abs (EnCnt (dev w)) + Z.of_nat (power_reqs [q]) <= INT_MAX ->
  power_inv (exec (do_req ops q) w) /\
  EnCnt (dev (exec (do_req ops q) w)) = EnCnt (dev w) + req_balance [q].
Proof.
  intros HE Hinv Hrange.
  assert (Neutral : forall (w' : World D CB) (l : list Call),
            calls w' = calls w ++ l ->
            Forall (fun c => c <> CallEnable /\ c <> CallDisable) l ->
            EnCnt (dev w') = EnCnt (dev w) ->
            power_inv w' /\ EnCnt (dev w') = EnCnt (dev w) + 0).
  { intros w' l Hc HF He. split; [eapply power_inv_neutral; eauto | lia]. }
  assert (One : forall c : Call, c <> CallEnable -> c <> CallDisable ->
            Forall (fun c => c <> CallEnable /\ c <> CallDisable) [c]).
  { intros c H1 H2. constructor; [split; assumption | constructor]. }
  destruct q; cbn [do_req req_balance]; rewrite exec_bind, exec_ret.
  - destruct (@do_pwr_step D CB ops (ke_Enable HE) (ke_Disable HE) ReqDisable w Hinv)
      as [H1 H2].
    + cbn [power_reqs] in Hrange. unfold INT_MIN, INT_MAX in *. lia.
    + cbn [do_pwr balance] in H1, H2. split; [exact H1 | lia].
  - destruct (@do_pwr_step D CB ops (ke_Enable HE) (ke_Disable HE) ReqEnable w Hinv)
      as [H1 H2].
    + cbn [power_reqs] in Hrange. unfold INT_MIN, INT_MAX in *. lia.
    + cbn [do_pwr balance] in H1, H2. split; [exact H1 | lia].
  - apply (Neutral _ [CallGetRate]).
    + unfold exec, DeviceIntrfGetRate. rewrite invoke_ret_eq. reflexivity.
    + apply One; discriminate.
    + unfold exec, DeviceIntrfGetRate. rewrite invoke_ret_eq. apply (ke_GetRate HE).
  - apply (Neutral _ [CallSetRate Rate]).
    + unfold exec, DeviceIntrfSetRate. rewrite invoke_ret_eq. reflexivity.
    + apply One; discriminate.
    + unfold exec, DeviceIntrfSetRate. rewrite invoke_ret_eq. apply (ke_SetRate HE).
  - apply (Neutral _ (if Busy (dev w) then [] else [CallStartRx DevAddr])).
    + apply calls_StartRx.
    + destruct (Busy (dev w)); [constructor | apply One; discriminate].
    + unfold exec. destruct (Busy (dev w)) eqn:Hb.
      * rewrite DeviceIntrfStartRx_busy by assumption. reflexivity.
      * rewrite DeviceIntrfStartRx_idle by assumption. cbv zeta. cbn [snd dev].
        pose proof (ke_StartRx HE (set_Busy true (dev w)) DevAddr) as Hk.
        destruct (StartRx ops (set_Busy true (dev w)) DevAddr) as [[|] h];
          cbn in *; exact Hk.
  - apply (Neutral _ [CallRxData BuffLen]).
    + apply calls_RxData.
    + apply One; discriminate.
    + unfold exec, DeviceIntrfRxData. rewrite invoke_ret_eq. apply (ke_RxData HE).
  - apply (Neutral _ [CallStopRx]).
    + reflexivity.
    + apply One; discriminate.
    + cbn. apply (ke_StopRx HE).
  - apply (Neutral _ (if Busy (dev w) then [] else [CallStartTx DevAddr])).
    + apply calls_StartTx.
    + destruct (Busy (dev w)); [constructor | apply One; discriminate].
    + unfold exec. destruct (Busy (dev w)) eqn:Hb.
      * rewrite DeviceIntrfStartTx_busy by assumption. reflexivity.
      * rewrite DeviceIntrfStartTx_idle by assumption. cbv zeta. cbn [snd dev].
        pose proof (ke_StartTx HE (set_Busy true (dev w)) DevAddr) as Hk.
        destruct (StartTx ops (set_Busy true (dev w)) DevAddr) as [[|] h];
          cbn in *; exact Hk.
  - apply (Neutral _ [CallTxData pBuff BuffLen]).
    + apply calls_TxData.
    + apply One; discriminate.
    + unfold exec, DeviceIntrfTxData. rewrite invoke_ret_eq. apply (ke_TxData HE).
  - apply (Neutral _ [CallStopTx]).
    + reflexivity.
    + apply One; discriminate.
    + cbn. apply (ke_StopTx HE).
  - unfold exec, DeviceIntrfReset. destruct (Reset ops) as [f|] eqn:Hr.
    + apply (Neutral _ [CallReset]).
      * reflexivity.
      * apply One; discriminate.
      * cbn. apply (ke_Reset HE Hr).
    + apply (Neutral _ []).
      * cbn. now rewrite app_nil_r.
      * constructor.
      * reflexivity.
Qed.

Lemma req_balance_cons (q : Req) (qs : list Req) :
  req_balance (q :: qs) = req_balance [q] + req_balance qs.
Proof. destruct q; cbn [req_balance]; lia. Qed.

Lemma power_reqs_cons (q : Req) (qs : list Req) :
  power_reqs (q :: qs) = (power_reqs [q] + power_reqs qs)%nat.
Proof. destruct q; cbn [power_reqs]; lia. Qed.

Lemma req_balance_step (q : Req) :
  Z.abs (req_balance [q]) <= Z.of_nat (power_reqs [q]).
Proof. destruct q; cbn [req_balance power_reqs]; lia. Qed.

Lemma run_reqs_power (qs : list Req) :
  ImplKeepsEnCnt ops ->
  forall w : World D CB,
    power_inv w ->
    Z.abs (EnCnt (dev w)) + Z.of_nat (power_reqs qs) <= INT_MAX ->
    power_inv (exec (run_reqs ops qs) w) /\
    EnCnt (dev (exec (run_reqs ops qs) w)) = EnCnt (dev w) + req_balance qs.
Proof.
  intros HE. induction qs as [|q qs IH]; intros w Hinv Hrange.
  - cbn. unfold exec, ret. cbn. split; [assumption | lia].
  - rewrite run_reqs_cons_exec.
    rewrite power_reqs_cons in Hrange.
    pose proof (req_balance_step q) as Hq.
    destruct (@do_req_power q w HE Hinv) as [Hinv' Hc]; [lia|].
    destruct (IH _ Hinv') as [Hinv'' Hc']; [rewrite Hc; lia|].
    split; [assumption|].
    rewrite Hc', Hc, (req_balance_cons q qs). lia.
Qed.

(** X2.  From the initial state (count 0, hardware off) and through any
    sequence of wrapper calls with at most INT_MAX Enables and Disables
    among them, the enable count is the number of Enables minus the
    number of Disables issued, and the hardware is enabled if and only if
    the count is positive: Start, data, Stop, rate and Reset calls change
    neither.  The implementation is assumed to leave the count to the
    wrappers. *)
Theorem DeviceIntrfPower_tracks_requests (qs : list Req) (w : World D CB) :
  ImplKeepsEnCnt ops ->
  EnCnt (dev w) = 0 -> hw_enabled false (calls w) = false ->
  Z.of_nat (power_reqs qs) <= INT_MAX ->
  EnCnt (dev (exec (run_reqs ops qs) w)) = req_balance qs /\
  (hw_enabled false (calls (exec (run_reqs ops qs) w)) = true <->
   0 < EnCnt (dev (exec (run_reqs ops qs) w))).
Proof.
  intros HE H0 Hoff Hlen.
  destruct (@run_reqs_power qs HE w) as [Hinv Hc].
  - unfold power_inv. rewrite H0, Hoff. split; [discriminate | lia].
  - rewrite H0. cbn. exact Hlen.
  - rewrite H0 in Hc. cbn in Hc. split; [exact Hc | exact Hinv].
Qed.

End Sequences.

(** * Start calls that preempt one another *)

Lemma filter_length_app_cons (A : Type) (p : A -> bool) (l1 l2 : list A) (t : A) :
  length (filter p (l1 ++ t :: l2)) =
    (length (filter p l1) + (if p t then 1 else 0) + length (filter p l2))%nat.
Proof.
  rewrite filter_app, length_app. cbn [filter].
  destruct (p t); cbn [length]; lia.
Qed.

Section Preemption.

Variables D CB : Type.
Variable ops : DEVINTRF_OPS D CB.

(** A step of a schedule advances one call by one step, or does nothing
    when the schedule names no call. *)
Lemma step_nth_spec (ts : list (StartReq * StartPc)) :
  forall (i : nat) (w : World D CB),
    step_nth ops i ts w = (ts, w) \/
    exists l1 r pc l2,
      ts = l1 ++ (r, pc) :: l2 /\ length l1 = i /\
      step_nth ops i ts w =
        (l1 ++ (r, eval (step_start ops r pc) w) :: l2,
         exec (step_start ops r pc) w).
Proof.
  induction ts as [|[r pc] ts IH]; intros i w.
  - left. destruct i; reflexivity.
  - destruct i as [|i].
    + right. exists [], r, pc, ts. split; [reflexivity|]. split; [reflexivity|].
      cbn [step_nth]. rewrite bind_unfold. reflexivity.
    + destruct (IH i w) as [E | (l1 & r' & pc' & l2 & E1 & E2 & E3)].
      * left. cbn [step_nth]. rewrite bind_unfold, E. reflexivity.
      * right. exists ((r, pc) :: l1), r', pc', l2.
        split; [rewrite E1; reflexivity|]. split; [cbn; lia|].
        cbn [step_nth]. rewrite bind_unfold, E3. reflexivity.
Qed.

Lemma step_start_TAS (r : StartReq) (w : World D CB) :
  eval (step_start ops r PcTestAndSet) w =
    (if Busy (dev w) then PcReturned false else PcInvoke) /\
  Busy (dev (exec (step_start ops r PcTestAndSet) w)) = true.
Proof.
  unfold eval, exec. cbn [step_start]. rewrite bind_unfold. split; reflexivity.
Qed.

Lemma step_start_Invoke (r : StartReq) (w : World D CB) :
  eval (step_start ops r PcInvoke) w =
    (if fst (impl_start ops r (dev w)) then PcReturned true else PcClear) /\
  dev (exec (step_start ops r PcInvoke) w) = snd (impl_start ops r (dev w)).
Proof.
  unfold eval, exec. cbn [step_start]. rewrite bind_unfold, invoke_ret_eq.
  cbn [fst snd ret dev]. destruct (fst (impl_start ops r (dev w))); split; reflexivity.
Qed.

Lemma step_start_Clear (r : StartReq) (w : World D CB) :
  eval (step_start ops r PcClear) w = PcReturned false /\
  Busy (dev (exec (step_start ops r PcClear) w)) = false.
Proof. split; reflexivity. Qed.

Lemma step_start_Returned (r : StartReq) (b : bool) (w : World D CB) :
  eval (step_start ops r (PcReturned b)) w = PcReturned b /\
  exec (step_start ops r (PcReturned b)) w = w.
Proof. split; reflexivity. Qed.

Lemma run_sched_app (s1 s2 : list nat) :
  forall (ts : list (StartReq * StartPc)) (w : World D CB),
    run_sched ops (s1 ++ s2) ts w =
      run_sched ops s2 (fst (run_sched ops s1 ts w)) (snd (run_sched ops s1 ts w)).
Proof.
  induction s1 as [|i s1 IH]; intros ts w.
  - reflexivity.
  - cbn [app run_sched]. rewrite !bind_unfold. apply IH.
Qed.

Lemma step_nth_skip (l1 ts : list (StartReq * StartPc)) (i : nat) (w : World D CB) :
  step_nth ops (length l1 + i) (l1 ++ ts) w =
    (l1 ++ fst (step_nth ops i ts w), snd (step_nth ops i ts w)).
Proof.
  induction l1 as [|[r pc] l1 IH].
  - cbn. destruct (step_nth ops i ts w); reflexivity.
  - cbn [length app Nat.add step_nth]. rewrite bind_unfold, IH. reflexivity.
Qed.

Lemma step_start_3 (r : StartReq) (w : World D CB) :
  let s1 := step_start ops r PcTestAndSet w in
  let s2 := step_start ops r (fst s1) (snd s1) in
  step_start ops r (fst s2) (snd s2) =
    (PcReturned (fst (do_start ops r w)), snd (do_start ops r w)).
Proof.
  cbv zeta. destruct (Busy (dev w)) eqn:Hb.
  - rewrite do_start_busy by assumption.
    cbn [step_start]. rewrite bind_unfold.
    unfold AtomicTestAndSet_Busy, AtomicTestAndSet. cbn [fst snd ret].
    rewrite Hb. cbn. rewrite <- Hb at 1. rewrite set_Busy_same, world_eta.
    reflexivity.
  - rewrite do_start_idle by assumption.
    cbn [step_start]. rewrite bind_unfold.
    unfold AtomicTestAndSet_Busy, AtomicTestAndSet. cbn [fst snd ret].
    rewrite Hb. cbn [step_start]. rewrite bind_unfold.
    rewrite invoke_ret_eq. cbn [fst snd ret dev calls].
    assert (Hc : call_of r = match r with
                             | ReqStartRx a => CallStartRx a
                             | ReqStartTx a => CallStartTx a
                             end) by (destruct r; reflexivity).
    rewrite <- Hc.
    destruct (impl_start ops r (set_Busy true (dev w))) as [[|] h];
      cbn; reflexivity.
Qed.

Lemma run_sched_one_call (l1 l2 : list (StartReq * StartPc)) (r : StartReq)
    (w : World D CB) :
  let i := length l1 in
  run_sched ops [i; i; i] (l1 ++ (r, PcTestAndSet) :: l2) w =
    (l1 ++ (r, PcReturned (eval (do_start ops r) w)) :: l2,
     exec (do_start ops r) w).
Proof.
  intros i.
  assert (Hstep : forall pc (v : World D CB),
            step_nth ops i (l1 ++ (r, pc) :: l2) v =
              (l1 ++ (r, fst (step_start ops r pc v)) :: l2,
               snd (step_start ops r pc v))).
  { intros pc v. unfold i. rewrite <- (Nat.add_0_r (length l1)), step_nth_skip.
    cbn [step_nth]. rewrite bind_unfold. reflexivity. }
  cbn [run_sched]. rewrite bind_unfold, Hstep. cbn [fst snd].
  rewrite bind_unfold, Hstep. cbn [fst snd].
  rewrite bind_unfold, Hstep. cbn [fst snd].
  pose proof (step_start_3 r w) as H3. cbv zeta in H3. rewrite H3.
  reflexivity.
Qed.

Lemma run_starts_cons_exec (r : StartReq) (rs : list StartReq) (w : World D CB) :
  exec (run_starts ops (r :: rs)) w = exec (run_starts ops rs) (exec (do_start ops r) w).
Proof. cbn [run_starts]. rewrite !exec_bind, exec_ret. reflexivity. Qed.

Lemma seq_sched_run (rs : list StartReq) :
  forall (l1 : list (StartReq * StartPc)) (w : World D CB),
    run_sched ops (seq_sched (length l1) (length rs))
              (l1 ++ map (fun r => (r, PcTestAndSet)) rs) w =
      (l1 ++ combine rs (map PcReturned (eval (run_starts ops rs) w)),
       exec (run_starts ops rs) w).
Proof.
  induction rs as [|r rs IH]; intros l1 w.
  - reflexivity.
  - cbn [length seq_sched map].
    change (length l1 :: length l1 :: length l1 :: seq_sched (S (length l1)) (length rs))
      with ([length l1; length l1; length l1] ++ seq_sched (S (length l1)) (length rs)).
    rewrite run_sched_app, run_sched_one_call. cbn [fst snd].
    replace (S (length l1)) with
      (length (l1 ++ [(r, PcReturned (eval (do_start ops r) w))]))
      by (rewrite length_app; cbn; lia).
    replace (l1 ++ (r, PcReturned (eval (do_start ops r) w))
                :: map (fun r0 => (r0, PcTestAndSet)) rs)
      with ((l1 ++ [(r, PcReturned (eval (do_start ops r) w))])
              ++ map (fun r0 => (r0, PcTestAndSet)) rs)
      by (rewrite <- app_assoc; reflexivity).
    rewrite IH. rewrite <- app_assoc.
    rewrite run_starts_cons, run_starts_cons_exec. reflexivity.
Qed.

(** X6.  Run one after the other, each through its three steps, the
    calls of the step model are the wrappers: under the schedule
    [seq_sched] every call ends returned with the value that
    DeviceIntrfStartRx or DeviceIntrfStartTx returns in the same
    sequence of calls, and the world is the same. *)
Theorem run_sched_sequential (rs : list StartReq) (w : World D CB) :
  run_sched ops (seq_sched 0 (length rs)) (map (fun r => (r, PcTestAndSet)) rs) w =
    (combine rs (map PcReturned (eval (run_starts ops rs) w)),
     exec (run_starts ops rs) w).
Proof. exact (seq_sched_run rs [] w). Qed.

(** The busy flag belongs to the wrappers: the start routines of the
    implementation leave it as they find it. *)
Hypothesis StartRx_keeps_Busy :
  forall h a, Busy (snd (StartRx ops h a)) = Busy h.
Hypothesis StartTx_keeps_Busy :
  forall h a, Busy (snd (StartTx ops h a)) = Busy h.

Lemma step_start_owned (l1 l2 : list (StartReq * StartPc)) (r : StartReq)
    (pc : StartPc) (w : World D CB) :
  flag_owned (l1 ++ (r, pc) :: l2) w ->
  flag_owned (l1 ++ (r, eval (step_start ops r pc) w) :: l2)
             (exec (step_start ops r pc) w).
Proof.
  unfold flag_owned, holders. rewrite !filter_length_app_cons.
  set (a := length (filter holds l1)). set (b := length (filter holds l2)).
  intros [Hle Hiff]. destruct pc as [| | |rv].
  - destruct (step_start_TAS r w) as [E B]. rewrite E, B.
    destruct (Busy (dev w)) eqn:Hb; cbn [holds snd] in *.
    + split; assumption.
    + assert ((a + 0 + b)%nat <> 1%nat)
        by (intros X; apply Hiff in X; discriminate).
      split; [lia|]. split; [intros _; lia | reflexivity].
  - destruct (step_start_Invoke r w) as [E Hd]. rewrite E, Hd.
    rewrite (@impl_start_keeps_Busy D CB ops StartRx_keeps_Busy StartTx_keeps_Busy).
    cbn [holds snd] in *.
    assert (Hb : Busy (dev w) = true) by (apply Hiff; lia).
    rewrite Hb.
    destruct (fst (impl_start ops r (dev w))); cbn [holds snd];
      (split; [lia|]; split; [intros _; lia | reflexivity]).
  - destruct (step_start_Clear r w) as [E B]. rewrite E, B.
    cbn [holds snd] in *. split; [lia|]. split; [discriminate | lia].
  - destruct (step_start_Returned r rv w) as [E B]. rewrite E, B.
    split; assumption.
Qed.

Lemma step_nth_owned (i : nat) (ts : list (StartReq * StartPc)) (w : World D CB) :
  flag_owned ts w ->
  flag_owned (eval (step_nth ops i ts) w) (exec (step_nth ops i ts) w).
Proof.
  intros H. unfold eval, exec.
  destruct (step_nth_spec ts i w) as [E | (l1 & r & pc & l2 & E1 & _ & E3)].
  - rewrite E. exact H.
  - rewrite E3. cbn [fst snd]. apply step_start_owned. rewrite <- E1. exact H.
Qed.

Lemma run_sched_owned (sched : list nat) :
  forall (ts : list (StartReq * StartPc)) (w : World D CB),
    flag_owned ts w ->
    flag_owned (eval (run_sched ops sched ts) w) (exec (run_sched ops sched ts) w).
Proof.
  induction sched as [|i sched IH]; intros ts w H.
  - exact H.
  - cbn [run_sched]. rewrite eval_bind, exec_bind.
    apply IH, step_nth_owned, H.
Qed.

(** Once every call has returned, the holders are the calls that
    returned true, and the others returned false. *)
Lemma all_returned_counts (ts : list (StartReq * StartPc)) :
  forallb has_returned ts = true ->
  holders ts = length (filter returned_true ts) /\
  length ts = (length (filter returned_true ts) + length (filter failed ts))%nat.
Proof.
  unfold holders. induction ts as [|[r pc] ts IH]; intros H.
  - split; reflexivity.
  - cbn [forallb] in H. apply andb_true_iff in H. destruct H as [H1 H2].
    destruct (IH H2) as [IH1 IH2].
    destruct pc as [| | |[|]]; try discriminate H1;
      cbn [filter holds returned_true failed snd length]; lia.
Qed.

(** X4.  No leak of the flag under preemption.  Assume the
    implementation's start routines do not write the busy flag.  Then
    Start calls issued on an idle handle and interleaved in any way, with
    no Stop in between, keep at most one holder of the bracket, the flag
    being set exactly when there is one; once every call has returned,
    the flag is set if and only if one of them returned true. *)
Theorem run_sched_flag_owner (sched : list nat) (ts : list (StartReq * StartPc))
    (w : World D CB) :
  holders ts = 0%nat -> Busy (dev w) = false ->
  let ts' := eval (run_sched ops sched ts) w in
  let w' := exec (run_sched ops sched ts) w in
  (holders ts' <= 1)%nat /\
  (Busy (dev w') = true <-> holders ts' = 1%nat) /\
  (forallb has_returned ts' = true ->
   (Busy (dev w') = true <-> length (filter returned_true ts') = 1%nat)).
Proof.
  intros H0 Hb ts' w'.
  assert (Hinit : flag_owned ts w).
  { unfold flag_owned. rewrite H0, Hb. split; [lia|]. split; [discriminate | lia]. }
  destruct (run_sched_owned sched Hinit) as [Hle Hiff].
  fold ts' in Hle, Hiff. fold w' in Hiff.
  split; [exact Hle|]. split; [exact Hiff|].
  intros Hall. destruct (all_returned_counts _ Hall) as [E _].
  rewrite <- E. exact Hiff.
Qed.

(** The implementation's start routines never refuse. *)
Hypothesis impl_start_ok : forall r h, fst (impl_start ops r h) = true.

Lemma step_start_no_refusal (l1 l2 : list (StartReq * StartPc)) (r : StartReq)
    (pc : StartPc) (w : World D CB) :
  flag_owned (l1 ++ (r, pc) :: l2) w ->
  no_refusal (l1 ++ (r, pc) :: l2) ->
  no_refusal (l1 ++ (r, eval (step_start ops r pc) w) :: l2).
Proof.
  unfold flag_owned, no_refusal, holders. rewrite !filter_length_app_cons.
  set (a := length (filter holds l1)). set (b := length (filter holds l2)).
  set (c1 := length (filter clearing l1)). set (c2 := length (filter clearing l2)).
  set (f1 := length (filter failed l1)). set (f2 := length (filter failed l2)).
  intros [Hle Hiff] [Hc Hf]. destruct pc as [| | |rv].
  - destruct (step_start_TAS r w) as [E _]. rewrite E.
    destruct (Busy (dev w)) eqn:Hb; cbn [holds clearing failed snd] in *.
    + assert ((a + 0 + b)%nat = 1%nat) by (apply Hiff; reflexivity).
      split; [lia | intros _; assumption].
    + assert ((a + 0 + b)%nat <> 1%nat)
        by (intros X; apply Hiff in X; discriminate).
      split; [lia | intros _; lia].
  - destruct (step_start_Invoke r w) as [E _]. rewrite E, impl_start_ok.
    cbn [holds clearing failed snd] in *. split; [lia | intros _; lia].
  - cbn [clearing snd] in Hc. lia.
  - destruct (step_start_Returned r rv w) as [E _]. rewrite E.
    split; assumption.
Qed.

Lemma run_sched_no_refusal (sched : list nat) :
  forall (ts : list (StartReq * StartPc)) (w : World D CB),
    flag_owned ts w -> no_refusal ts ->
    no_refusal (eval (run_sched ops sched ts) w).
Proof.
  induction sched as [|i sched IH]; intros ts w Ho Hn.
  - exact Hn.
  - cbn [run_sched]. rewrite eval_bind.
    apply IH; [apply step_nth_owned, Ho|].
    unfold eval.
    destruct (step_nth_spec ts i w) as [E | (l1 & r & pc & l2 & E1 & _ & E3)].
    + rewrite E. exact Hn.
    + rewrite E3. cbn [fst]. apply step_start_no_refusal; rewrite <- E1; assumption.
Qed.

Lemma run_sched_length (sched : list nat) :
  forall (ts : list (StartReq * StartPc)) (w : World D CB),
    length (eval (run_sched ops sched ts) w) = length ts.
Proof.
  induction sched as [|i sched IH]; intros ts w.
  - reflexivity.
  - cbn [run_sched]. rewrite eval_bind, IH. unfold eval.
    destruct (step_nth_spec ts i w) as [E | (l1 & r & pc & l2 & E1 & _ & E3)].
    + rewrite E. reflexivity.
    + rewrite E3, E1. cbn [fst]. rewrite !length_app. reflexivity.
Qed.

Lemma fresh_calls_counts (rs : list StartReq) :
  holders (map (fun r => (r, PcTestAndSet)) rs) = 0%nat /\
  length (filter clearing (map (fun r => (r, PcTestAndSet)) rs)) = 0%nat /\
  length (filter failed (map (fun r => (r, PcTestAndSet)) rs)) = 0%nat.
Proof.
  unfold holders. induction rs as [|r rs IH]; [repeat split|].
  cbn [map filter holds clearing failed snd]. exact IH.
Qed.

(** X5.  When the implementation's start routines always succeed and do
    not write the busy flag, N >= 1 Start calls issued on an idle
    handle, interleaved in any way and with no Stop in between, end with
    exactly one call returning true: whatever the schedule, once all of
    them have returned. *)
Theorem run_sched_exactly_one (sched : list nat) (rs : list StartReq) (w : World D CB) :
  rs <> [] -> Busy (dev w) = false ->
  let ts' := eval (run_sched ops sched (map (fun r => (r, PcTestAndSet)) rs)) w in
  forallb has_returned ts' = true ->
  length (filter returned_true ts') = 1%nat.
Proof.
  intros Hne Hb ts' Hall.
  destruct (fresh_calls_counts rs) as (H0 & Hc0 & Hf0).
  assert (Hinit : flag_owned (map (fun r => (r, PcTestAndSet)) rs) w).
  { unfold flag_owned. rewrite H0, Hb. split; [lia|]. split; [discriminate | lia]. }
  assert (Hn0 : no_refusal (map (fun r => (r, PcTestAndSet)) rs)).
  { unfold no_refusal. rewrite Hc0, Hf0. split; [reflexivity | lia]. }
  destruct (run_sched_owned sched Hinit) as [Hle _]. fold ts' in Hle.
  destruct (run_sched_no_refusal sched Hinit Hn0) as [_ Hf]. fold ts' in Hf.
  destruct (all_returned_counts _ Hall) as [E1 E2].
  assert (Hlen : length ts' = length rs).
  { unfold ts'. rewrite run_sched_length, length_map. reflexivity. }
  assert (length rs <> 0%nat) by (destruct rs; [congruence | discriminate]).
  destruct (length (filter failed ts')) as [|k] eqn:Ef.
  - lia.
  - rewrite <- E1. apply Hf. lia.
Qed.

End Preemption.

(** * Edge behaviour of the enable count and of a refused Start *)

Section Edges.

Variables D CB : Type.
Variable ops : DEVINTRF_OPS D CB.

(** A Disable on a handle nobody has enabled powers the hardware down
    once more and takes the count below zero. *)
Lemma DeviceIntrfDisable_surplus_step (w : World D CB) :
  (forall h, EnCnt (Disable ops h) = EnCnt h) ->
  INT_MIN < EnCnt (dev w) <= 0 ->
  calls (exec (DeviceIntrfDisable ops) w) = calls w ++ [CallDisable] /\
  EnCnt (dev (exec (DeviceIntrfDisable ops) w)) = EnCnt (dev w) - 1.
Proof.
  intros Hk H. rewrite DeviceIntrfDisable_eq. cbv zeta. unfold AtomicDec.
  rewrite wrap_int_id by (unfold INT_MIN, INT_MAX in *; lia).
  destruct (Z.ltb_spec (EnCnt (dev w) - 1) 1); [|lia].
  cbn [calls dev]. rewrite Hk. split; reflexivity.
Qed.

Lemma times_Disable_surplus (j : nat) :
  (forall h, EnCnt (Disable ops h) = EnCnt h) ->
  forall w : World D CB,
    EnCnt (dev w) <= 0 -> INT_MIN <= EnCnt (dev w) - Z.of_nat j ->
    calls (exec (times j (DeviceIntrfDisable ops)) w) =
      calls w ++ repeat CallDisable j /\
    EnCnt (dev (exec (times j (DeviceIntrfDisable ops)) w)) =
      EnCnt (dev w) - Z.of_nat j.
Proof.
  intros Hk. induction j as [|j IH]; intros w H0 Hmin.
  - cbn. unfold exec, ret. cbn. rewrite app_nil_r. split; [reflexivity | lia].
  - rewrite times_S.
    destruct (@DeviceIntrfDisable_surplus_step w Hk) as [Hc He]; [lia|].
    destruct (IH (exec (DeviceIntrfDisable ops) w)) as [Hc' He']; [lia | lia |].
    rewrite Hc', He', Hc, He. split.
    + rewrite <- app_assoc. reflexivity.
    + lia.
Qed.

(** An Enable that does not bring the count to 1 only bumps it. *)
Lemma times_Enable_deficit (j : nat) :
  forall w : World D CB,
    EnCnt (dev w) + Z.of_nat j <= 0 -> INT_MIN <= EnCnt (dev w) ->
    exec (times j (DeviceIntrfEnable ops)) w =
      mkWorld (set_EnCnt (EnCnt (dev w) + Z.of_nat j) (dev w)) (calls w).
Proof.
  induction j as [|j IH]; intros w Hle Hmin.
  - cbn. unfold exec, ret. cbn. rewrite Z.add_0_r, set_EnCnt_same.
    symmetry; apply world_eta.
  - rewrite times_S.
    assert (Hstep : exec (DeviceIntrfEnable ops) w =
                      mkWorld (set_EnCnt (EnCnt (dev w) + 1) (dev w)) (calls w)).
    { rewrite DeviceIntrfEnable_eq. cbv zeta. unfold AtomicInc.
      rewrite wrap_int_id by (unfold INT_MIN, INT_MAX in *; lia).
      destruct (Z.eqb_spec (EnCnt (dev w) + 1) 1); [lia | reflexivity]. }
    rewrite Hstep.
    rewrite IH by (cbn [dev calls EnCnt set_EnCnt]; lia).
    cbn [dev calls EnCnt set_EnCnt]. rewrite set_EnCnt_twice.
    f_equal. f_equal. lia.
Qed.

(** X7.  Disable has no floor.  On a handle at count 0, k Disable calls
    (k <= INT_MAX) each invoke the implementation's Disable routine and
    take the count to -k; the k Enable calls that follow bring the count
    back to 0 without invoking the implementation's Enable routine, and
    only the Enable after them powers the hardware up. *)
Theorem DeviceIntrfDisable_surplus (k : nat) (w : World D CB) :
  (forall h, EnCnt (Disable ops h) = EnCnt h) ->
  EnCnt (dev w) = 0 -> Z.of_nat k <= INT_MAX ->
  let w1 := exec (times k (DeviceIntrfDisable ops)) w in
  let w2 := exec (times k (DeviceIntrfEnable ops)) w1 in
  calls w1 = calls w ++ repeat CallDisable k /\
  EnCnt (dev w1) = - Z.of_nat k /\
  calls w2 = calls w1 /\
  EnCnt (dev w2) = 0 /\
  calls (exec (DeviceIntrfEnable ops) w2) = calls w2 ++ [CallEnable].
Proof.
  intros Hk H0 Hmax w1 w2.
  destruct (@times_Disable_surplus k Hk w) as [Hc He];
    [lia | unfold INT_MIN, INT_MAX in *; lia |].
  fold w1 in Hc, He. rewrite H0 in He.
  assert (Hw2 : w2 = mkWorld (set_EnCnt (EnCnt (dev w1) + Z.of_nat k) (dev w1)) (calls w1)).
  { apply times_Enable_deficit; rewrite He; unfold INT_MIN, INT_MAX in *; lia. }
  split; [exact Hc|]. split; [lia|].
  rewrite Hw2. cbn [calls dev EnCnt set_EnCnt].
  split; [reflexivity|]. split; [lia|].
  rewrite DeviceIntrfEnable_eq. cbv zeta. cbn [dev calls EnCnt set_EnCnt].
  replace (EnCnt (dev w1) + Z.of_nat k) with 0 by lia. reflexivity.
Qed.

(** X8.  A refusal by the implementation costs nothing.  When a Start
    call on an idle handle returns false, the flag is clear again, and
    the next Start call, of either kind, is not turned down by the
    wrapper: it invokes the implementation's start routine and returns
    its verdict. *)
Theorem DeviceIntrfStart_refused_retry (r r' : StartReq) (w : World D CB) :
  Busy (dev w) = false ->
  eval (do_start ops r) w = false ->
  let w1 := exec (do_start ops r) w in
  Busy (dev w1) = false /\
  calls (exec (do_start ops r') w1) = calls w ++ [call_of r; call_of r'] /\
  eval (do_start ops r') w1 = fst (impl_start ops r' (set_Busy true (dev w1))).
Proof.
  intros Hb Hf w1.
  assert (Hw1 : Busy (dev w1) = false /\ calls w1 = calls w ++ [call_of r]).
  { unfold w1, exec. unfold eval in Hf. rewrite do_start_idle in * by assumption.
    cbv zeta in *. cbn [fst snd] in *. rewrite Hf. cbn [dev calls].
    split; [reflexivity | destruct r; reflexivity]. }
  destruct Hw1 as [Hb1 Hc1].
  split; [exact Hb1|].
  unfold eval, exec. rewrite do_start_idle by assumption. cbv zeta. cbn [fst snd calls].
  rewrite Hc1, <- app_assoc. split; [destruct r'; reflexivity | reflexivity].
Qed.

End Edges.

(** * Enable calls that preempt one another *)

Section EnablePreemption.

Variables D CB : Type.
Variable ops : DEVINTRF_OPS D CB.

Lemma step_enable_nth_spec (ts : list EnablePc) :
  forall (i : nat) (w : World D CB),
    step_enable_nth ops i ts w = (ts, w) \/
    exists l1 pc l2,
      ts = l1 ++ pc :: l2 /\
      step_enable_nth ops i ts w =
        (l1 ++ eval (step_enable ops pc) w :: l2, exec (step_enable ops pc) w).
Proof.
  induction ts as [|pc ts IH]; intros i w.
  - left. destruct i; reflexivity.
  - destruct i as [|i].
    + right. exists [], pc, ts. split; [reflexivity|].
      cbn [step_enable_nth]. rewrite bind_unfold. reflexivity.
    + destruct (IH i w) as [E | (l1 & pc' & l2 & E1 & E3)].
      * left. cbn [step_enable_nth]. rewrite bind_unfold, E. reflexivity.
      * right. exists (pc :: l1), pc', l2.
        split; [rewrite E1; reflexivity|].
        cbn [step_enable_nth]. rewrite bind_unfold, E3. reflexivity.
Qed.

Lemma enable_calls_snoc (l : list Call) (c : Call) :
  enable_calls (l ++ [c]) =
    (enable_calls l + match c with CallEnable => 1 | _ => 0 end)%nat.
Proof.
  unfold enable_calls. rewrite filter_app, length_app.
  destruct c; reflexivity.
Qed.

(** X10.  DeviceIntrfEnable can return before the hardware is powered.
    On a handle at count 0, when a second Enable call runs between the
    atomic increment of a first one and its call of the implementation's
    Enable routine, the second call returns with the count at 2 while
    the routine has not been invoked yet: the trace is unchanged. *)
Theorem DeviceIntrfEnable_returns_before_power_up (w : World D CB) :
  EnCnt (dev w) = 0 ->
  run_enable_sched ops [0%nat; 1%nat] [EPcInc; EPcInc] w =
    ([EPcPowerUp; EPcReturned], mkWorld (set_EnCnt 2 (dev w)) (calls w)).
Proof.
  intros H0.
  cbn [run_enable_sched step_enable_nth step_enable].
  rewrite !bind_unfold. unfold AtomicInc_EnCnt. cbn [fst snd ret dev calls].
  rewrite H0. cbn [fst snd ret dev calls EnCnt set_EnCnt].
  rewrite !bind_unfold. cbn [fst snd ret dev calls EnCnt set_EnCnt].
  reflexivity.
Qed.

(** The enable count belongs to the wrappers. *)
Hypothesis Enable_keeps_EnCnt : forall h, EnCnt (Enable ops h) = EnCnt h.

Lemma step_enable_inv (base : nat) (l1 l2 : list EnablePc) (pc : EnablePc)
    (w : World D CB) :
  Z.of_nat (length (l1 ++ pc :: l2)) <= INT_MAX ->
  enable_inv base (l1 ++ pc :: l2) w ->
  enable_inv base (l1 ++ eval (step_enable ops pc) w :: l2)
             (exec (step_enable ops pc) w).
Proof.
  unfold enable_inv. rewrite !filter_length_app_cons, length_app. cbn [length].
  pose proof (filter_length_le past_inc l1) as B1.
  pose proof (filter_length_le past_inc l2) as B2.
  set (p1 := length (filter past_inc l1)) in *.
  set (p2 := length (filter past_inc l2)) in *.
  set (q1 := length (filter powering l1)).
  set (q2 := length (filter powering l2)).
  intros Hlen [Hc Hp]. destruct pc.
  - unfold eval, exec. cbn [step_enable]. rewrite bind_unfold.
    unfold AtomicInc_EnCnt. cbn [fst snd ret dev calls EnCnt set_EnCnt].
    unfold AtomicInc. rewrite Hc. cbn [past_inc powering] in *.
    rewrite wrap_int_id by (unfold INT_MIN, INT_MAX in *; lia).
    destruct (Z.eqb_spec (Z.of_nat (p1 + 0 + p2) + 1) 1) as [E|E];
      cbn [past_inc powering]; split; lia.
  - unfold eval, exec. cbn [step_enable]. rewrite bind_unfold.
    cbn [fst snd ret dev calls invoke past_inc powering] in *.
    rewrite Enable_keeps_EnCnt, enable_calls_snoc. split; lia.
  - split; assumption.
Qed.

Lemma run_enable_sched_inv (base : nat) (sched : list nat) :
  forall (ts : list EnablePc) (w : World D CB),
    Z.of_nat (length ts) <= INT_MAX ->
    enable_inv base ts w ->
    enable_inv base (eval (run_enable_sched ops sched ts) w)
               (exec (run_enable_sched ops sched ts) w).
Proof.
  induction sched as [|i sched IH]; intros ts w Hlen Hinv.
  - exact Hinv.
  - cbn [run_enable_sched]. rewrite eval_bind, exec_bind.
    assert (Hs : Z.of_nat (length (eval (step_enable_nth ops i ts) w)) <= INT_MAX /\
                 enable_inv base (eval (step_enable_nth ops i ts) w)
                            (exec (step_enable_nth ops i ts) w)).
    { unfold eval, exec.
      destruct (step_enable_nth_spec ts i w) as [E | (l1 & pc & l2 & E1 & E3)].
      - rewrite E. split; assumption.
      - rewrite E3. cbn [fst snd]. subst ts. split.
        + rewrite length_app in *. cbn [length] in *. exact Hlen.
        + apply step_enable_inv; assumption. }
    destruct Hs as [Hs1 Hs2]. apply IH; assumption.
Qed.

Lemma run_enable_sched_length (sched : list nat) :
  forall (ts : list EnablePc) (w : World D CB),
    length (eval (run_enable_sched ops sched ts) w) = length ts.
Proof.
  induction sched as [|i sched IH]; intros ts w.
  - reflexivity.
  - cbn [run_enable_sched]. rewrite eval_bind, IH. unfold eval.
    destruct (step_enable_nth_spec ts i w) as [E | (l1 & pc & l2 & E1 & E3)].
    + rewrite E. reflexivity.
    + rewrite E3, E1. cbn [fst]. rewrite !length_app. reflexivity.
Qed.

Lemma all_enable_returned_counts (ts : list EnablePc) :
  forallb enable_returned ts = true ->
  length (filter past_inc ts) = length ts /\
  length (filter powering ts) = 0%nat.
Proof.
  induction ts as [|pc ts IH]; intros H.
  - split; reflexivity.
  - cbn [forallb] in H. apply andb_true_iff in H. destruct H as [H1 H2].
    destruct (IH H2) as [IH1 IH2].
    destruct pc; try discriminate H1. cbn [filter past_inc powering length].
    split; [lia | exact IH2].
Qed.

Lemma fresh_enable_counts (n : nat) :
  length (filter past_inc (repeat EPcInc n)) = 0%nat /\
  length (filter powering (repeat EPcInc n)) = 0%nat.
Proof. induction n as [|n IH]; [split; reflexivity | exact IH]. Qed.

(** X9.  The power-up is unique and the count exact under preemption.
    On a handle at count 0, n Enable calls (1 <= n <= INT_MAX)
    interleaved in any way between their atomic increment and their call
    of the implementation's Enable routine leave, once all of them have
    returned, the count at n and the routine invoked exactly once. *)
Theorem run_enable_sched_power_up_once (sched : list nat) (n : nat) (w : World D CB) :
  EnCnt (dev w) = 0 -> (1 <= n)%nat -> Z.of_nat n <= INT_MAX ->
  let ts' := eval (run_enable_sched ops sched (repeat EPcInc n)) w in
  let w' := exec (run_enable_sched ops sched (repeat EPcInc n)) w in
  forallb enable_returned ts' = true ->
  EnCnt (dev w') = Z.of_nat n /\
  enable_calls (calls w') = (enable_calls (calls w) + 1)%nat.
Proof.
  intros H0 H1 Hmax ts' w' Hall.
  destruct (fresh_enable_counts n) as [Hp Hq].
  assert (Hinit : enable_inv (enable_calls (calls w)) (repeat EPcInc n) w).
  { unfold enable_inv. rewrite Hp, Hq, H0. split; [reflexivity | cbn; lia]. }
  destruct (@run_enable_sched_inv (enable_calls (calls w)) sched (repeat EPcInc n) w)
    as [Hc Hcalls]; [rewrite repeat_length; exact Hmax | exact Hinit |].
  fold ts' in Hc, Hcalls. fold w' in Hc, Hcalls.
  destruct (all_enable_returned_counts _ Hall) as [E1 E2].
  assert (Hlen : length ts' = n).
  { unfold ts'. rewrite run_enable_sched_length, repeat_length. reflexivity. }
  rewrite E1, Hlen in Hc. rewrite E1, E2, Hlen in Hcalls.
  split; [exact Hc | lia].
Qed.

End EnablePreemption.

(** * Concrete runs of the sequence and preemption statements *)


Lemma DeviceIntrfPower_tracks_requests_witness :
  ImplKeepsEnCnt (sim true) /\
  EnCnt (dev w0) = 0 /\ hw_enabled false (calls w0) = false /\
  Z.of_nat (power_reqs [RqEnable; RqStartTx 80; RqEnable; RqStopTx; RqDisable]) <= INT_MAX /\
  EnCnt (dev (exec (run_reqs (sim true)
                      [RqEnable; RqStartTx 80; RqEnable; RqStopTx; RqDisable]) w0)) =
    req_balance [RqEnable; RqStartTx 80; RqEnable; RqStopTx; RqDisable].
Proof.
  assert (HE : ImplKeepsEnCnt (sim true))
    by (constructor; intros; try reflexivity; discriminate).
  assert (H0 : EnCnt (dev w0) = 0) by reflexivity.
  assert (H1 : hw_enabled false (calls w0) = false) by reflexivity.
  assert (H2 : Z.of_nat (power_reqs [RqEnable; RqStartTx 80; RqEnable; RqStopTx; RqDisable])
               <= INT_MAX) by (vm_compute; discriminate).
  repeat (split; [assumption|]).
  exact (proj1 (@DeviceIntrfPower_tracks_requests unit unit (sim true)
                  [RqEnable; RqStartTx 80; RqEnable; RqStopTx; RqDisable]
                  w0 HE H0 H1 H2)).
Defined.

Lemma run_sched_at_most_one_witness :
  (forall h a, Busy (snd (StartRx (sim true) h a)) = Busy h) /\
  (forall h a, Busy (snd (StartTx (sim true) h a)) = Busy h) /\
  holders [(ReqStartRx 80, PcTestAndSet); (ReqStartTx 81, PcTestAndSet)] = 0%nat /\
  (length (filter returned_true
     (eval (run_sched (sim true) [0; 1; 0; 1]%nat
              [(ReqStartRx 80, PcTestAndSet); (ReqStartTx 81, PcTestAndSet)]) w0))
   <= 1)%nat.
Proof.
  assert (Hrx : forall h a, Busy (snd (StartRx (sim true) h a)) = Busy h)
    by (intros; reflexivity).
  assert (Htx : forall h a, Busy (snd (StartTx (sim true) h a)) = Busy h)
    by (intros; reflexivity).
  assert (H0 : holders [(ReqStartRx 80, PcTestAndSet); (ReqStartTx 81, PcTestAndSet)]
               = 0%nat) by reflexivity.
  repeat (split; [assumption|]).
  exact (@run_sched_at_most_one unit unit (sim true) Hrx Htx [0; 1; 0; 1]%nat
           [(ReqStartRx 80, PcTestAndSet); (ReqStartTx 81, PcTestAndSet)] w0 H0).
Defined.

Lemma run_sched_flag_owner_witness :
  (forall h a, Busy (snd (StartRx (sim false) h a)) = Busy h) /\
  (forall h a, Busy (snd (StartTx (sim false) h a)) = Busy h) /\
  holders [(ReqStartRx 80, PcTestAndSet); (ReqStartTx 81, PcTestAndSet)] = 0%nat /\
  Busy (dev w0) = false /\
  (holders (eval (run_sched (sim false) [0; 1; 0; 0]%nat
              [(ReqStartRx 80, PcTestAndSet); (ReqStartTx 81, PcTestAndSet)]) w0)
   <= 1)%nat.
Proof.
  assert (Hrx : forall h a, Busy (snd (StartRx (sim false) h a)) = Busy h)
    by (intros; reflexivity).
  assert (Htx : forall h a, Busy (snd (StartTx (sim false) h a)) = Busy h)
    by (intros; reflexivity).
  assert (H0 : holders [(ReqStartRx 80, PcTestAndSet); (ReqStartTx 81, PcTestAndSet)]
               = 0%nat) by reflexivity.
  assert (Hb : Busy (dev w0) = false) by reflexivity.
  repeat (split; [assumption|]).
  exact (proj1 (@run_sched_flag_owner unit unit (sim false) Hrx Htx [0; 1; 0; 0]%nat
                  [(ReqStartRx 80, PcTestAndSet); (ReqStartTx 81, PcTestAndSet)]
                  w0 H0 Hb)).
Defined.

Lemma run_sched_exactly_one_witness :
  (forall h a, Busy (snd (StartRx (sim true) h a)) = Busy h) /\
  (forall h a, Busy (snd (StartTx (sim true) h a)) = Busy h) /\
  (forall r h, fst (impl_start (sim true) r h) = true) /\
  [ReqStartRx 80; ReqStartTx 81] <> [] /\
  Busy (dev w0) = false /\
  forallb has_returned
    (eval (run_sched (sim true) [0; 1; 0]%nat
             (map (fun r => (r, PcTestAndSet)) [ReqStartRx 80; ReqStartTx 81])) w0) = true /\
  length (filter returned_true
    (eval (run_sched (sim true) [0; 1; 0]%nat
             (map (fun r => (r, PcTestAndSet)) [ReqStartRx 80; ReqStartTx 81])) w0)) = 1%nat.
Proof.
  assert (Hrx : forall h a, Busy (snd (StartRx (sim true) h a)) = Busy h)
    by (intros; reflexivity).
  assert (Htx : forall h a, Busy (snd (StartTx (sim true) h a)) = Busy h)
    by (intros; reflexivity).
  assert (Hok : forall r h, fst (impl_start (sim true) r h) = true)
    by (intros [a|a] h; reflexivity).
  assert (Hne : [ReqStartRx 80; ReqStartTx 81] <> []) by discriminate.
  assert (Hb : Busy (dev w0) = false) by reflexivity.
  assert (Hall : forallb has_returned
    (eval (run_sched (sim true) [0; 1; 0]%nat
             (map (fun r => (r, PcTestAndSet)) [ReqStartRx 80; ReqStartTx 81])) w0) = true)
    by reflexivity.
  repeat (split; [assumption|]).
  exact (@run_sched_exactly_one unit unit (sim true) Hrx Htx Hok [0; 1; 0]%nat
           [ReqStartRx 80; ReqStartTx 81] w0 Hne Hb Hall).
Defined.

Lemma DeviceIntrfDisable_surplus_witness :
  (forall h, EnCnt (Disable (sim true) h) = EnCnt h) /\
  EnCnt (dev w0) = 0 /\ Z.of_nat 3 <= INT_MAX /\
  calls (exec (times 3 (DeviceIntrfDisable (sim true))) w0) =
    calls w0 ++ repeat CallDisable 3.
Proof.
  assert (Hk : forall h, EnCnt (Disable (sim true) h) = EnCnt h)
    by (intros; reflexivity).
  assert (H0 : EnCnt (dev w0) = 0) by reflexivity.
  assert (H1 : Z.of_nat 3 <= INT_MAX) by (vm_compute; discriminate).
  repeat (split; [assumption|]).
  exact (proj1 (@DeviceIntrfDisable_surplus unit unit (sim true) 3 w0 Hk H0 H1)).
Defined.

Lemma DeviceIntrfStart_refused_retry_witness :
  Busy (dev w0) = false /\
  eval (do_start (sim false) (ReqStartRx 80)) w0 = false /\
  Busy (dev (exec (do_start (sim false) (ReqStartRx 80)) w0)) = false.
Proof.
  assert (Hb : Busy (dev w0) = false) by reflexivity.
  assert (Hf : eval (do_start (sim false) (ReqStartRx 80)) w0 = false) by reflexivity.
  repeat (split; [assumption|]).
  exact (proj1 (@DeviceIntrfStart_refused_retry unit unit (sim false)
                  (ReqStartRx 80) (ReqStartTx 81) w0 Hb Hf)).
Defined.

Lemma run_enable_sched_power_up_once_witness :
  (forall h, EnCnt (Enable (sim true) h) = EnCnt h) /\
  EnCnt (dev w0) = 0 /\ (1 <= 2)%nat /\ Z.of_nat 2 <= INT_MAX /\
  forallb enable_returned
    (eval (run_enable_sched (sim true) [0; 1; 0]%nat (repeat EPcInc 2)) w0) = true /\
  EnCnt (dev (exec (run_enable_sched (sim true) [0; 1; 0]%nat (repeat EPcInc 2)) w0)) =
    Z.of_nat 2.
Proof.
  assert (Hk : forall h, EnCnt (Enable (sim true) h) = EnCnt h)
    by (intros; reflexivity).
  assert (H0 : EnCnt (dev w0) = 0) by reflexivity.
  assert (H1 : (1 <= 2)%nat) by lia.
  assert (H2 : Z.of_nat 2 <= INT_MAX) by (vm_compute; discriminate).
  assert (Hall : forallb enable_returned
    (eval (run_enable_sched (sim true) [0; 1; 0]%nat (repeat EPcInc 2)) w0) = true)
    by reflexivity.
  repeat (split; [assumption|]).
  exact (proj1 (@run_enable_sched_power_up_once unit unit (sim true) Hk
                  [0; 1; 0]%nat 2 w0 H0 H1 H2 Hall)).
Defined.

Lemma DeviceIntrfEnable_returns_before_power_up_witness :
  EnCnt (dev w0) = 0 /\
  run_enable_sched (sim true) [0%nat; 1%nat] [EPcInc; EPcInc] w0 =
    ([EPcPowerUp; EPcReturned], mkWorld (set_EnCnt 2 (dev w0)) (calls w0)).
Proof.
  assert (H0 : EnCnt (dev w0) = 0) by reflexivity.
  split; [exact H0|].
  exact (@DeviceIntrfEnable_returns_before_power_up unit unit (sim true) w0 H0).
Defined.
